(** * Zero-shot emotion classification with CLIP: a shallow embedding

    The development follows [notebooks/zero_shot_emotion_webcam.ipynb]:
    the label-embedding builder [zeroshot_classifier], the per-frame
    classification block, and the two capture loops (webcam and
    prerecorded video).

    Tensor arithmetic is modelled over the real numbers extended with one
    non-finite value: rounding and overflow of the float types are not
    modelled, the [0/0] of a normalization by a zero norm is.  Results
    that depend on the values of the entries are therefore stated for
    well-scaled vectors, whose norm lies between 2^-10 and 2^10: there
    binary32 arithmetic neither overflows nor underflows to zero and
    departs from the reals by rounding only.  Module [Float32] runs the
    normalizations in binary32 outside that range.  The embedding model
    and the video capture are collaborators of the notebook; they appear
    as parameters of the sections below.  [torch.topk] is an interface
    with two implementations: a scan that keeps the first largest entry,
    and the selection that the CPU kernel of the library runs. *)

From Stdlib Require Import String Ascii.
From Stdlib Require Import Reals Lra Lia ZArith Bool List Permutation.
From Stdlib Require Import FunctionalExtensionality.
From Stdlib Require Floats.SpecFloat.
Import ListNotations.

Set Implicit Arguments.

(** ** Python exceptions and the error monad *)

Inductive exn : Type :=
| ValueError        (* str.format: malformed format string *)
| IndexError        (* str.format: positional index out of range; list index *)
| RuntimeError      (* torch: shape mismatch, empty stack, topk out of range *)
| Unsupported       (* str.format field outside the modelled fragment *)
| EncoderError.     (* raised by the embedding model *)

Inductive result (A : Type) : Type :=
| Ok (a : A)
| Raise (e : exn).

Arguments Ok {A} a.
Arguments Raise {A} e.

Definition bind {A B : Type} (m : result A) (k : A -> result B) : result B :=
  match m with
  | Ok a => k a
  | Raise e => Raise e
  end.

Declare Scope result_scope.
Delimit Scope result_scope with result.
Notation "x <- m ;; k" := (bind m (fun x => k))
  (at level 61, m at next level, right associativity) : result_scope.
Open Scope result_scope.

(** A Python list comprehension whose body may raise: elements are
    evaluated left to right and the first exception escapes. *)
Fixpoint mapM {A B : Type} (f : A -> result B) (l : list A) : result (list B) :=
  match l with
  | [] => Ok []
  | a :: l' => b <- f a ;; bs <- mapM f l' ;; Ok (b :: bs)
  end.

(** ** Tensor entries *)

Open Scope R_scope.

(** A tensor entry is a real number or NaN.  IEEE infinities are left out:
    every division of the notebook has as divisor the norm of the vector
    that holds the dividend, a row count, or a sum of exponentials, so a
    nonzero real is never divided by zero. *)
Inductive tnum : Type :=
| Fin (r : R)
| NaN.

Definition tadd (a b : tnum) : tnum :=
  match a, b with
  | Fin x, Fin y => Fin (x + y)
  | _, _ => NaN
  end.

Definition tmul (a b : tnum) : tnum :=
  match a, b with
  | Fin x, Fin y => Fin (x * y)
  | _, _ => NaN
  end.

Definition tdiv (a b : tnum) : tnum :=
  match a, b with
  | Fin x, Fin y => if Req_dec_T y 0 then NaN else Fin (x / y)
  | _, _ => NaN
  end.

Definition tsqrt (a : tnum) : tnum :=
  match a with
  | Fin x => Fin (sqrt x)
  | NaN => NaN
  end.

Definition texp (a : tnum) : tnum :=
  match a with
  | Fin x => Fin (exp x)
  | NaN => NaN
  end.

Definition vec : Type := list tnum.

(** [t.sum()] of a vector. *)
Definition tsum (v : vec) : tnum := fold_right tadd (Fin 0) v.

(** [t.norm()]: the 2-norm, the square root of the sum of squares. *)
Definition norm (v : vec) : tnum := tsqrt (tsum (map (fun x => tmul x x) v)).

(** [v /= v.norm()]: every entry divided by the norm of the vector. *)
Definition normalize (v : vec) : vec := map (fun x => tdiv x (norm v)) v.

(** Vectors whose entries are all real, and the real-valued sum and sum of
    squares used to state results about them. *)
Definition fin (xs : list R) : vec := map Fin xs.

Definition Rsum (xs : list R) : R := fold_right Rplus 0 xs.

Definition sumsq (xs : list R) : R := Rsum (map (fun x => x * x) xs).

Definition Rdot (xs ys : list R) : R :=
  Rsum (map (fun p => fst p * snd p) (combine xs ys)).

(** A vector of reals is well scaled when its 2-norm lies between 2^-10
    and 2^10, that is its sum of squares between 2^-20 and 2^20. *)
Definition well_scaled (xs : list R) : Prop :=
  / 1048576 <= sumsq xs <= 1048576.

(** The operations as the specification words them, on real vectors: the
    unit L2 normalization divides every entry by the square root of the
    sum of the squares; a column of a matrix given by its rows; the
    elementwise arithmetic mean; the softmax.  They are written without
    reference to the tensor operations above, and the properties compare
    the two. *)
Definition Runit (xs : list R) : list R :=
  map (fun x => x / sqrt (sumsq xs)) xs.

Definition Rcolumn (j : nat) (rs : list (list R)) : list R :=
  map (fun r => nth j r 0) rs.

(** The elementwise arithmetic mean of rows of length [D]. *)
Definition Rmean (D : nat) (rs : list (list R)) : list R :=
  map (fun d => Rsum (Rcolumn d rs) / INR (length rs)) (seq 0 D).

Definition Rsoftmax (ls : list R) : list R :=
  map (fun l => exp l / Rsum (map exp ls)) ls.

(** A two-dimensional tensor of shape [(length mrows, ncols)]. *)
Record tensor2 : Type := Tensor2 { ncols : nat; mrows : list vec }.

Definition nrows (m : tensor2) : nat := length (mrows m).

(** [m /= m.norm(dim=-1, keepdim=True)]: each row divided by its own norm. *)
Definition div_row_norms (m : tensor2) : tensor2 :=
  Tensor2 (ncols m) (map normalize (mrows m)).

(** Entry [d] of a row; reading past the end of a ragged row gives NaN. *)
Definition entry (d : nat) (row : vec) : tnum := nth d row NaN.

(** [m.mean(dim=0)]: for each column, the sum over the rows divided by the
    number of rows.  With no rows every entry is [0/0]. *)
Definition mean_dim0 (m : tensor2) : vec :=
  map (fun d => tdiv (tsum (map (entry d) (mrows m))) (Fin (INR (nrows m))))
      (seq 0 (ncols m)).

(** A matrix all of whose entries are real, given by its rows. *)
Definition finite_matrix (m : tensor2) : Prop :=
  exists rs, mrows m = map fin rs /\ Forall (fun r => length r = ncols m) rs.

(** [torch.stack(ws, dim=1)] of one-dimensional tensors: vector [i] becomes
    column [i].  An empty list and vectors of unequal size are refused. *)
Definition stack_dim1 (ws : list vec) : result tensor2 :=
  match ws with
  | [] => Raise RuntimeError
  | w :: _ =>
      if forallb (fun w' => Nat.eqb (length w') (length w)) ws
      then Ok (Tensor2 (length ws)
                 (map (fun d => map (entry d) ws) (seq 0 (length w))))
      else Raise RuntimeError
  end.

Definition column (i : nat) (m : tensor2) : vec := map (entry i) (mrows m).

(** [x @ w] for a vector [x] of size D and a matrix of shape (D, L). *)
Definition dot (x y : vec) : tnum :=
  tsum (map (fun p => tmul (fst p) (snd p)) (combine x y)).

Definition matmul (x : vec) (w : tensor2) : result vec :=
  if Nat.eqb (length x) (nrows w)
  then Ok (map (fun j => dot x (column j w)) (seq 0 (ncols w)))
  else Raise RuntimeError.

(** [t.softmax(dim=-1)]: exp(t_i) / sum_j exp(t_j). *)
Definition softmax (v : vec) : vec :=
  let e := map texp v in map (fun x => tdiv x (tsum e)) e.

(** [c * t] for a Python float [c]. *)
Definition scale (c : R) (v : vec) : vec := map (tmul (Fin c)) v.

(** ** [str.format] with one positional argument

    [template.format(classname)] scans the template once, left to right.
    [{{] and [}}] are escaped braces, [{}] is the next automatically
    numbered field and [{N}] the field with explicit index [N]; with a
    single argument only index 0 exists.  Replacement fields carrying a
    name, an attribute or item access, a conversion or a format spec are
    outside the modelled fragment and yield [Unsupported]. *)

Open Scope string_scope.

Inductive numbering : Type :=
| Unset                     (* no field seen yet *)
| Automatic (next : nat)    (* [{}] fields seen, [next] is the next index *)
| Manual.                   (* [{N}] fields seen *)

Definition is_digit (c : ascii) : bool :=
  (Nat.leb 48 (nat_of_ascii c) && Nat.leb (nat_of_ascii c) 57)%bool.

Fixpoint all_digits (s : string) : bool :=
  match s with
  | EmptyString => true
  | String c r => (is_digit c && all_digits r)%bool
  end.

Fixpoint digits_value (acc : nat) (s : string) : nat :=
  match s with
  | EmptyString => acc
  | String c r => digits_value (10 * acc + (nat_of_ascii c - 48)) r
  end.

(** [args[i]] for the argument tuple [(arg,)]. *)
Definition get_arg (arg : string) (i : nat) : result string :=
  match i with
  | O => Ok arg
  | S _ => Raise IndexError
  end.

(** The value of one replacement field and the numbering mode after it.
    Mixing automatic and explicit numbering is a [ValueError]. *)
Definition field_value (name : string) (num : numbering) (arg : string)
  : result (string * numbering) :=
  match name with
  | EmptyString =>
      match num with
      | Manual => Raise ValueError
      | Unset => v <- get_arg arg 0 ;; Ok (v, Automatic 1)
      | Automatic n => v <- get_arg arg n ;; Ok (v, Automatic (S n))
      end
  | _ =>
      if all_digits name then
        match num with
        | Automatic _ => Raise ValueError
        | _ => v <- get_arg arg (digits_value 0 name) ;; Ok (v, Manual)
        end
      else Raise Unsupported
  end.

Definition lbrace : ascii := "{"%char.
Definition rbrace : ascii := "}"%char.

Fixpoint format_text (t : string) (num : numbering) (arg : string)
  : result string :=
  match t with
  | EmptyString => Ok EmptyString
  | String c r =>
      if Ascii.eqb c lbrace then
        match r with
        | EmptyString => Raise ValueError
        | String c' r' =>
            if Ascii.eqb c' lbrace
            then s <- format_text r' num arg ;; Ok (String lbrace s)
            else format_field r EmptyString num arg
        end
      else if Ascii.eqb c rbrace then
        match r with
        | EmptyString => Raise ValueError
        | String c' r' =>
            if Ascii.eqb c' rbrace
            then s <- format_text r' num arg ;; Ok (String rbrace s)
            else Raise ValueError
        end
      else s <- format_text r num arg ;; Ok (String c s)
  end
with format_field (t : string) (name : string) (num : numbering) (arg : string)
  : result string :=
  match t with
  | EmptyString => Raise ValueError
  | String c r =>
      if Ascii.eqb c rbrace then
        vn <- field_value name num arg ;;
        s <- format_text r (snd vn) arg ;;
        Ok (fst vn ++ s)
      else format_field r (name ++ String c EmptyString) num arg
  end.

Definition format (template arg : string) : result string :=
  format_text template Unset arg.

(** Templates without any brace: they have no replacement field. *)
Fixpoint no_braces (t : string) : bool :=
  match t with
  | EmptyString => true
  | String c r =>
      (negb (Ascii.eqb c lbrace) && negb (Ascii.eqb c rbrace) && no_braces r)%bool
  end.

(** ** The label-embedding builder ([zeroshot_classifier]) *)

Section Builder.

(** [model.encode_text(clip.tokenize(texts).cuda())]: the text encoder of
    the embedding model, returning a tensor with one row per text. *)
Variable encode_text : list string -> result tensor2.

(** [[template.format(classname) for template in templates]] *)
Definition render (templates : list string) (classname : string)
  : result (list string) :=
  mapM (fun template => format template classname) templates.

(** The body of the loop over [classnames]. *)
Definition class_embedding (templates : list string) (classname : string)
  : result vec :=
  texts <- render templates classname ;;
  class_embeddings <- encode_text texts ;;
  let class_embeddings := div_row_norms class_embeddings in
  let class_embedding := mean_dim0 class_embeddings in
  let class_embedding := normalize class_embedding in
  Ok class_embedding.

(** The loop: [zeroshot_weights.append(class_embedding)] per class name. *)
Fixpoint zeroshot_loop (classnames templates : list string)
  : result (list vec) :=
  match classnames with
  | [] => Ok []
  | classname :: rest =>
      class_embedding <- class_embedding templates classname ;;
      zeroshot_weights <- zeroshot_loop rest templates ;;
      Ok (class_embedding :: zeroshot_weights)
  end.

Definition zeroshot_classifier (classnames templates : list string)
  : result tensor2 :=
  zeroshot_weights <- zeroshot_loop classnames templates ;;
  stack_dim1 zeroshot_weights.

End Builder.

(** ** [torch.topk] with k = 1

    The library promises the largest entry of the tensor and its index,
    NaN counting as the largest value, and refuses a tensor with no entry.
    Which index is reported when the largest value occurs more than once is
    not part of that promise, so the notebook is modelled against the
    interface; the kernel that runs on the CPU is modelled further
    down. *)

(** [a] comes strictly before [b] in the order used by topk. *)
Definition tgt (a b : tnum) : bool :=
  match a, b with
  | NaN, Fin _ => true
  | Fin x, Fin y => if Rlt_dec y x then true else false
  | _, NaN => false
  end.

Class TopK : Type := {
  topk1 : vec -> option (tnum * nat);
  topk1_empty : topk1 [] = None;
  topk1_largest : forall v, v <> [] ->
    exists p i, topk1 v = Some (p, i) /\ nth_error v i = Some p /\
                forall q, In q v -> tgt q p = false
}.

(** An implementation of the interface that keeps the first largest
    entry. *)
Fixpoint scan_first (v : vec) (i : nat) (best : tnum * nat) : tnum * nat :=
  match v with
  | [] => best
  | x :: r => scan_first r (S i) (if tgt x (fst best) then (x, i) else best)
  end.

Definition topk1_first (v : vec) : option (tnum * nat) :=
  match v with
  | [] => None
  | x :: r => Some (scan_first r 1 (x, O))
  end.

(** *** The CPU kernel for k = 1

    What [probabilities.cpu().topk(1)] runs on a row of [n] entries, in a
    build of the library with the GNU C++ library: the entries are paired
    with their indices in a queue; for [n >= 64] the queue goes through
    [std::partial_sort], otherwise through [std::nth_element] with the
    first position as the one to select; the pair then found at the front
    of the queue is returned.  The comparison [comp (x, i) (y, j)] sees the
    values only, so the queue is kept as the list of the indices and the
    comparison as [gt i j]. *)

Section Kernel.

Variable gt : nat -> nat -> bool.

Definition queue_at (q : list nat) (i : nat) : nat := nth i q O.

Fixpoint queue_put (q : list nat) (i : nat) (x : nat) : list nat :=
  match q, i with
  | [], _ => []
  | _ :: r, O => x :: r
  | y :: r, S i' => y :: queue_put r i' x
  end.

(** [std::iter_swap(q + i, q + j)] *)
Definition iter_swap (q : list nat) (i j : nat) : list nat :=
  queue_put (queue_put q i (queue_at q j)) j (queue_at q i).

(** [comp(q + i, q + j)] *)
Definition comp (q : list nat) (i j : nat) : bool :=
  gt (queue_at q i) (queue_at q j).

(** [__move_median_to_first(result, a, b, c, comp)] *)
Definition move_median_to_first (q : list nat) (result a b c : nat)
  : list nat :=
  if comp q a b then
    if comp q b c then iter_swap q result b
    else if comp q a c then iter_swap q result c
    else iter_swap q result a
  else if comp q a c then iter_swap q result a
  else if comp q b c then iter_swap q result c
  else iter_swap q result b.

(** [while (comp(first, pivot)) ++first;] *)
Fixpoint advance_first (fuel : nat) (q : list nat) (first pivot : nat) : nat :=
  match fuel with
  | O => first
  | S f =>
      if comp q first pivot then advance_first f q (S first) pivot else first
  end.

(** [while (comp(pivot, last)) --last;] *)
Fixpoint retreat_last (fuel : nat) (q : list nat) (last pivot : nat) : nat :=
  match fuel with
  | O => last
  | S f =>
      if comp q pivot last then retreat_last f q (pred last) pivot else last
  end.

(** [__unguarded_partition(first, last, pivot, comp)]: each round advances
    [first], steps [last] back once and further, and either returns
    [first] or swaps the two entries and goes on. *)
Fixpoint unguarded_partition (fuel : nat) (q : list nat)
         (first last pivot : nat) : list nat * nat :=
  match fuel with
  | O => (q, first)
  | S f =>
      let first := advance_first (length q) q first pivot in
      let last := retreat_last (length q) q (pred last) pivot in
      if Nat.ltb first last
      then unguarded_partition f (iter_swap q first last) (S first) last pivot
      else (q, first)
  end.

(** [__unguarded_partition_pivot(first, last, comp)] *)
Definition unguarded_partition_pivot (q : list nat) (first last : nat)
  : list nat * nat :=
  let mid := (first + (last - first) / 2)%nat in
  let q := move_median_to_first q first (S first) mid (pred last) in
  unguarded_partition (length q) q (S first) last first.

(** [__heap_select(first, first + 1, last, comp)]: the heap has the one
    entry at the front, which every later entry that compares before it
    replaces.  This is also what [partial_sort] does for k = 1. *)
Fixpoint heap_select (n : nat) (q : list nat) (i : nat) : list nat :=
  match n with
  | O => q
  | S n' => heap_select n' (if comp q i 0 then iter_swap q 0 i else q) (S i)
  end.

(** [std::move_backward(first, i, i + 1)] for [first] the front. *)
Fixpoint move_backward (q : list nat) (i : nat) : list nat :=
  match i with
  | O => q
  | S j => move_backward (queue_put q i (queue_at q j)) j
  end.

(** [__unguarded_linear_insert(last, comp)] for the value [val]. *)
Fixpoint linear_insert (fuel : nat) (q : list nat) (last : nat) (val : nat)
  : list nat :=
  match fuel, last with
  | S f, S next =>
      if gt val (queue_at q next)
      then linear_insert f (queue_put q last (queue_at q next)) next val
      else queue_put q last val
  | _, _ => queue_put q last val
  end.

(** [__insertion_sort(first, last, comp)] from position [i] on, for
    [first] the front. *)
Fixpoint insertion_sort (n : nat) (q : list nat) (i last : nat) : list nat :=
  match n with
  | O => q
  | S n' =>
      if Nat.ltb i last then
        let q' :=
          if comp q i 0
          then queue_put (move_backward q i) 0 (queue_at q i)
          else linear_insert i q i (queue_at q i) in
        insertion_sort n' q' (S i) last
      else q
  end.

(** [__introselect(first, nth, last, depth_limit, comp)] with [first] and
    [nth] the front of the queue: the cut of a partition lies behind the
    front, so only [last] moves. *)
Fixpoint introselect (depth : nat) (q : list nat) (last : nat) : list nat :=
  if Nat.ltb 3 last then
    match depth with
    | O => heap_select (last - 1) q 1
    | S d =>
        let (q', cut) := unguarded_partition_pivot q 0 last in
        introselect d q' cut
    end
  else insertion_sort last q 1 last.

(** [std::nth_element(q, q, q + n, comp)] on the queue of the indices. *)
Definition nth_element (n : nat) : list nat :=
  match n with
  | O => []
  | _ => introselect (2 * Nat.log2 n) (seq 0 n) n
  end.

(** The index at the front of the queue when the kernel is done. *)
Definition select_index (n : nat) : nat :=
  if Nat.leb 64 n
  then queue_at (heap_select (n - 1) (seq 0 n) 1) 0
  else queue_at (nth_element n) 0.

End Kernel.

(** The index the kernel selects in a vector. *)
Definition kernel_index (v : vec) : nat :=
  select_index (fun i j => tgt (nth i v (hd NaN v)) (nth j v (hd NaN v)))
               (length v).

(** Whether entry [i] of [v] is a largest entry. *)
Definition is_largest (v : vec) (i : nat) : bool :=
  (Nat.ltb i (length v) && forallb (fun q => negb (tgt q (nth i v NaN))) v)%bool.

(** topk with the index of the kernel.  The interface carries the promise
    of the library; the index is therefore checked to designate a largest
    entry, which is what the selection is for. *)
Definition topk1_kernel (v : vec) : option (tnum * nat) :=
  match v with
  | [] => None
  | _ :: _ =>
      if is_largest v (kernel_index v)
      then Some (nth (kernel_index v) v NaN, kernel_index v)
      else topk1_first v
  end.

(** All the vectors of [n] entries below [k], and whether the selection
    of the kernel, run on a vector of numbers, ends on a largest entry. *)
Fixpoint words (k n : nat) : list (list nat) :=
  match n with
  | O => [[]]
  | S n' => flat_map (fun w => map (fun x => x :: w) (seq 0 k)) (words k n')
  end.

Definition selects_largest (l : list nat) : bool :=
  let i := select_index (fun a b => Nat.ltb (nth b l O) (nth a l O))
                        (length l) in
  (Nat.ltb i (length l) && forallb (fun x => Nat.leb x (nth i l O)) l)%bool.

(** Vectors with a pattern of repeated entries, for the longer rows. *)
Definition pattern (n s : nat) : list nat :=
  map (fun i => ((i * (s + 3) + s) mod 7)%nat) (seq 0 n).

(** ** The per-frame prediction blocks *)

Record prediction : Type := Prediction {
  probabilities : vec;
  top_prob : tnum;
  top_label : nat
}.

Section Classifier.

Variable image_input : Type.

(** [model.encode_image(image_input).to(device)]; the tensor of shape
    (1, D) is represented by its only row. *)
Variable encode_image : image_input -> result vec.

Context {tk : TopK}.

Definition topk (probabilities : vec) : result (tnum * nat) :=
  match topk1 probabilities with
  | Some top => Ok top
  | None => Raise RuntimeError
  end.

(** The [with torch.no_grad()] block of the webcam loop.  [*] and [@]
    have the same precedence and associate to the left: the features are
    scaled by 100 before the matrix product.  [type(torch.float32)] and
    [cpu()] do not change values. *)
Definition webcam_predict (zeroshot_weights : tensor2) (input : image_input)
  : result prediction :=
  image_features <- encode_image input ;;
  let image_features := normalize image_features in
  logits <- matmul (scale 100 image_features) zeroshot_weights ;;
  let probabilities := softmax logits in
  top <- topk probabilities ;;
  Ok (Prediction probabilities (fst top) (snd top)).

(** Lines 276 to 279 of that block on their own: what is computed from the
    normalized image features. *)
Definition score_features (zeroshot_weights : tensor2) (image_features : vec)
  : result prediction :=
  logits <- matmul (scale 100 image_features) zeroshot_weights ;;
  let probabilities := softmax logits in
  top <- topk probabilities ;;
  Ok (Prediction probabilities (fst top) (snd top)).

(** The same block as written in the prerecorded-video loop. *)
Definition video_predict (zeroshot_weights : tensor2) (input : image_input)
  : result prediction :=
  image_features <- encode_image input ;;
  let image_features := normalize image_features in
  logits <- matmul (scale 100 image_features) zeroshot_weights ;;
  let probabilities := softmax logits in
  top <- topk probabilities ;;
  Ok (Prediction probabilities (fst top) (snd top)).

End Classifier.

(** ** The capture loops *)

(** What a run of a loop does to its collaborators, in order. *)
Inductive event (frame image_input : Type) : Type :=
| EncodeImage (input : image_input)     (* model.encode_image is called *)
| ImShow (shown : frame) (predicted_emotion : string) (p : tnum)
                                        (* overlay drawn, cv2.imshow *)
| Release.                              (* finally: cap.release() *)

Arguments EncodeImage {frame image_input} input.
Arguments ImShow {frame image_input} shown predicted_emotion p.
Arguments Release {frame image_input}.

Definition trace (frame image_input : Type) : Type :=
  list (event frame image_input).

(** The inputs handed to the image encoder during a run, in order. *)
Fixpoint encoder_inputs {frame image_input : Type}
         (tr : trace frame image_input) : list image_input :=
  match tr with
  | [] => []
  | EncodeImage input :: tr' => input :: encoder_inputs tr'
  | _ :: tr' => encoder_inputs tr'
  end.

(** How the [while] loop is left. *)
Inductive outcome : Type :=
| StreamEnded            (* [ret] is false: break *)
| NotOpened              (* [cap.isOpened()] is false *)
| QuitKey                (* the q key: break *)
| Uncaught (e : exn).    (* an exception leaves the [try] block *)

(** [cv2.waitKey(1)]: the next key code, -1 when no key is pressed. *)
Definition wait_key (keys : list Z) : Z * list Z :=
  match keys with
  | [] => ((-1)%Z, [])
  | k :: ks => (k, ks)
  end.

(** [cv2.waitKey(1) & 0xFF == ord('q')] *)
Definition is_quit (key : Z) : bool := Z.eqb (Z.land key 255) 113.

Section Loops.

Variables frame image_input : Type.

(** [cv2.flip(frame, 1)] *)
Variable flip : frame -> frame.

(** [preprocess(Image.fromarray(cv2.cvtColor(frame, cv2.COLOR_BGR2RGB)))
    .unsqueeze(0).to(device)] *)
Variable to_input : frame -> image_input.

Variable encode_image : image_input -> result vec.

Context {tk : TopK}.

(** The globals read by the loops. *)
Variable emotion_classes : list string.
Variable zeroshot_weights : tensor2.

(** [cv2.VideoCapture]: whether the device or file could be opened and
    the frames it still has to deliver.  [cap.read()] hands out the pending
    frames one by one with [ret] true; [ret] is false when none is left or
    the capture is not opened.  [cap.isOpened()] does not change before
    [cap.release()]. *)
Record capture : Type := Capture { opened : bool; pending : list frame }.

(** An encoder input is processed when its prediction returns and the top label
    names a class. *)
Definition processed (input : image_input) : Prop :=
  exists pred predicted_emotion,
    webcam_predict encode_image zeroshot_weights input = Ok pred /\
    nth_error emotion_classes (top_label pred) = Some predicted_emotion.

(** Iterations of the webcam loop, one per frame that [cap.read()]
    delivers; with no frame left [ret] is false and the loop breaks. *)
Fixpoint webcam_frames (frames : list frame) (keys : list Z)
  : trace frame image_input * outcome :=
  match frames with
  | [] => ([], StreamEnded)
  | frame :: frames' =>
      let frame := flip frame in
      let image_input := to_input frame in
      match webcam_predict encode_image zeroshot_weights image_input with
      | Raise e => ([EncodeImage image_input], Uncaught e)
      | Ok pred =>
          match nth_error emotion_classes (top_label pred) with
          | None => ([EncodeImage image_input], Uncaught IndexError)
          | Some predicted_emotion =>
              let shown := ImShow frame predicted_emotion (top_prob pred) in
              let (key, keys') := wait_key keys in
              if is_quit key
              then ([EncodeImage image_input; shown], QuitKey)
              else
                let (tr, out) := webcam_frames frames' keys' in
                (EncodeImage image_input :: shown :: tr, out)
          end
      end
  end.

(** Iterations of the prerecorded-video loop. *)
Fixpoint video_frames (frames : list frame) (keys : list Z)
  : trace frame image_input * outcome :=
  match frames with
  | [] => ([], StreamEnded)
  | frame :: frames' =>
      let image_input := to_input frame in
      match video_predict encode_image zeroshot_weights image_input with
      | Raise e => ([EncodeImage image_input], Uncaught e)
      | Ok pred =>
          match nth_error emotion_classes (top_label pred) with
          | None => ([EncodeImage image_input], Uncaught IndexError)
          | Some predicted_emotion =>
              let shown := ImShow frame predicted_emotion (top_prob pred) in
              let (key, keys') := wait_key keys in
              if is_quit key
              then ([EncodeImage image_input; shown], QuitKey)
              else
                let (tr, out) := video_frames frames' keys' in
                (EncodeImage image_input :: shown :: tr, out)
          end
      end
  end.

(** [try: while True: ... finally: cap.release()] *)
Definition webcam_loop (cap : capture) (keys : list Z)
  : trace frame image_input * outcome :=
  let (tr, out) :=
    if opened cap then webcam_frames (pending cap) keys
    else ([], StreamEnded) in
  ((tr ++ [Release])%list, out).

(** [try: while cap.isOpened(): ... finally: cap.release()] *)
Definition video_loop (cap : capture) (keys : list Z)
  : trace frame image_input * outcome :=
  let (tr, out) :=
    if opened cap then video_frames (pending cap) keys
    else ([], NotOpened) in
  ((tr ++ [Release])%list, out).

End Loops.

(** ** The normalizations in binary32

    The arithmetic of lines 212 to 214 and 275 in IEEE binary32, the
    element type of the tensors on the CPU: every square, sum, square
    root and quotient is rounded to binary32, so squares can overflow to
    infinity and underflow to zero. *)

Module Float32.

Import SpecFloat.

Definition f32 : Type := spec_float.

Definition prec : Z := 24.
Definition emax : Z := 128.

(** The binary32 number nearest to [m * 2^e]. *)
Definition of_Z (m e : Z) : f32 := binary_normalize prec emax m e false.

Definition fzero : f32 := S754_zero false.
Definition fnan : f32 := S754_nan.
Definition finf : f32 := S754_infinity false.

Definition fadd : f32 -> f32 -> f32 := SFadd prec emax.
Definition fmul : f32 -> f32 -> f32 := SFmul prec emax.
Definition fdiv : f32 -> f32 -> f32 := SFdiv prec emax.
Definition fsqrt : f32 -> f32 := SFsqrt prec emax.

Definition fsum (v : list f32) : f32 := fold_left fadd v fzero.

(** [t.norm()] *)
Definition fnorm (v : list f32) : f32 :=
  fsqrt (fsum (map (fun x => fmul x x) v)).

(** [v /= v.norm()] *)
Definition fnormalize (v : list f32) : list f32 :=
  map (fun x => fdiv x (fnorm v)) v.



End Float32.

(** ** The notebook's configuration *)

Module Notebook.

Open Scope string_scope.

Definition emotion_classes : list string :=
  ["happy"; "sad"; "angry"; "surprised"; "fearful"; "disgusted"; "serious";
   "scared"].

Definition emotion_templates : list string :=
  ["a photo of a person who is feeling {}.";
   "a close-up of a {} face.";
   "a portrait of a {} individual.";
   "a webcam photo of a {} person.";
   "a picture of someone looking {}.";
   "a facial expression that is {}.";
   "a snapshot of a {} expression.";
   "an image of a person expressing {} emotion.";
   "a headshot of a {} person.";
   "a digital rendering of a {} facial expression.";
   "an artistic interpretation of a {} face.";
   "a cartoon representation of a {} expression.";
   "a black and white photo of a {} person.";
   "a photo of a person feeling very {}.";
   "a stylized drawing of a {} facial expression.";
   "a photo captured by a webcam of a {} individual.";
   "a high-resolution image of a {} expression.";
   "a pixelated photo of a {} face.";
   "a blurred photo of a {} expression.";
   "a graphic illustration of a {} emotion.";
   "a candid shot of a {} person.";
   "a facial study of {} emotion.";
   "a computer-generated face looking {}.";
   "a photo depicting {} emotion."].

Close Scope string_scope.

End Notebook.

(** ** Reading a template and a trace *)

(** The text before and after the slot of a template that consists of
    brace-free text around one [{}]. *)
Fixpoint split_slot (t : string) : option (string * string) :=
  match t with
  | EmptyString => None
  | String c r =>
      if Ascii.eqb c lbrace then
        match r with
        | EmptyString => None
        | String c' r' =>
            if (Ascii.eqb c' rbrace && no_braces r')%bool
            then Some (EmptyString, r') else None
        end
      else if Ascii.eqb c rbrace then None
      else
        match split_slot r with
        | Some (a, b) => Some (String c a, b)
        | None => None
        end
  end.

(** The template with its slot replaced by [arg]. *)
Definition fill_slot (arg t : string) : string :=
  match split_slot t with
  | Some (a, b) => (a ++ arg ++ b)%string
  | None => t
  end.

(** The frames handed to [cv2.imshow] during a run, in order. *)
Fixpoint shown_frames {frame image_input : Type}
         (tr : trace frame image_input) : list frame :=
  match tr with
  | [] => []
  | ImShow f _ _ :: tr' => f :: shown_frames tr'
  | _ :: tr' => shown_frames tr'
  end.

(** How often the capture is released during a run. *)
Fixpoint releases {frame image_input : Type}
         (tr : trace frame image_input) : nat :=
  match tr with
  | [] => O
  | Release :: tr' => S (releases tr')
  | _ :: tr' => releases tr'
  end.

(** ** Concrete collaborators

    Small stand-ins for the embedding model and the capture device, used
    to run the definitions above on explicit inputs. *)

Module Scenario.

Open Scope string_scope.

(** A text encoder into a two-dimensional embedding space: one fixed
    vector per sentence, rows in the order of the texts. *)
Definition text_embedding (text : string) : vec :=
  if String.eqb text "a happy face." then fin [1; 0]
  else if String.eqb text "a sad face." then fin [0; 1]
  else if String.eqb text "one sad face." then fin [0; 3]
  else fin [-1; 0].

Definition encode_text (texts : list string) : result tensor2 :=
  Ok (Tensor2 2 (map text_embedding texts)).

(** A frame is a picture number and whether it is mirrored. *)
Definition frame : Type := (nat * bool)%type.

Definition flip (f : frame) : frame := (fst f, negb (snd f)).

Definition to_input (f : frame) : frame := f.

(** An image encoder that is unavailable for picture 0 and embeds every
    other picture as a multiple of the first basis vector. *)
Definition encode_image (input : frame) : result vec :=
  match fst input with
  | O => Raise EncoderError
  | S _ => Ok (fin [3; 0])
  end.

Definition emotion_classes : list string := ["happy"; "sad"].

(** The label matrix with columns [1; 0] and [0; 1]. *)
Definition weights : tensor2 := Tensor2 2 [fin [1; 0]; fin [0; 1]].

(** A label matrix whose two columns are both [1; 0]. *)
Definition tied_weights : tensor2 := Tensor2 2 [fin [1; 1]; fin [0; 0]].

Close Scope string_scope.

End Scenario.

(** Further stand-ins: a text encoder that is unavailable for the class
    "sad", and one that returns every embedding doubled. *)

Module Probe.

Open Scope string_scope.

Definition failing_encode_text (texts : list string) : result tensor2 :=
  if existsb (String.eqb "a sad face.") texts
  then Raise EncoderError
  else Scenario.encode_text texts.


(** An image encoder that returns one embedding, doubled once per picture
    number. *)
Definition scaled_encode_image (input : Scenario.frame) : result vec :=
  Ok (fin (Nat.iter (fst input) (map (Rmult 2)) [3; 4])).

(** An image encoder that answers with the zero vector. *)
Definition zero_encode_image (input : Scenario.frame) : result vec :=
  Ok (fin [0; 0]).

(** An image encoder whose embedding has three entries. *)
Definition wide_encode_image (input : Scenario.frame) : result vec :=
  Ok (fin [1; 0; 0]).

(** A label matrix with two rows and no column, and one with a NaN
    column. *)
Definition no_labels : tensor2 := Tensor2 0 [[]; []].

Definition nan_weights : tensor2 := Tensor2 2 [[Fin 1; NaN]; [Fin 0; NaN]].

(** A label matrix whose eight columns are all [1; 0]. *)
Definition eight_tied : tensor2 :=
  Tensor2 8 [fin [1; 1; 1; 1; 1; 1; 1; 1]; fin [0; 0; 0; 0; 0; 0; 0; 0]].

Close Scope string_scope.

End Probe.

(** * Properties *)

Close Scope string_scope.

Unset Implicit Arguments.

(** ** The error monad *)

Lemma bind_ok {A B : Type} (m : result A) (k : A -> result B) (b : B) :
  bind m k = Ok b -> exists a, m = Ok a /\ k a = Ok b.
Proof.
  destruct m as [a|e]; simpl; intros H.
  - exists a. split; [reflexivity | exact H].
  - discriminate H.
Qed.

Lemma mapM_ok_length {A B : Type} (f : A -> result B) (l : list A) (bs : list B) :
  mapM f l = Ok bs -> length bs = length l.
Proof.
  revert bs. induction l as [|a l IH]; simpl; intros bs H.
  - injection H as <-. reflexivity.
  - apply bind_ok in H. destruct H as [b [_ H]].
    apply bind_ok in H. destruct H as [bs' [Hbs H]].
    injection H as <-. simpl. f_equal. apply IH. exact Hbs.
Qed.


(** ** Arithmetic of tensor entries *)




(** ** Vectors of real entries *)

Lemma fin_length (xs : list R) : length (fin xs) = length xs.
Proof. apply length_map. Qed.

Lemma tsum_fin (xs : list R) : tsum (fin xs) = Fin (Rsum xs).
Proof.
  induction xs as [|x xs IH]; [reflexivity|].
  unfold tsum, fin in *. simpl. rewrite IH. reflexivity.
Qed.

Lemma squares_fin (xs : list R) :
  map (fun x => tmul x x) (fin xs) = fin (map (fun x => x * x) xs).
Proof. unfold fin. rewrite !map_map. reflexivity. Qed.

Lemma norm_fin (xs : list R) : norm (fin xs) = Fin (sqrt (sumsq xs)).
Proof. unfold norm. rewrite squares_fin, tsum_fin. reflexivity. Qed.

Lemma sumsq_nonneg (xs : list R) : 0 <= sumsq xs.
Proof.
  induction xs as [|x xs IH]; unfold sumsq in *; simpl; [lra | nra].
Qed.

Lemma sumsq_zero (xs : list R) : sumsq xs = 0 -> Forall (fun x => x = 0) xs.
Proof.
  induction xs as [|x xs IH]; intros H; constructor.
  - pose proof (sumsq_nonneg xs). unfold sumsq in *. simpl in H. nra.
  - apply IH. pose proof (sumsq_nonneg xs). unfold sumsq in *. simpl in H. nra.
Qed.

Lemma sumsq_scaled (c : R) (xs : list R) :
  sumsq (map (fun x => x / c) xs) = sumsq xs / (c * c).
Proof.
  destruct (Req_dec_T c 0) as [->|Hc].
  - induction xs as [|x xs IH]; unfold sumsq, Rdiv in *; simpl.
    + rewrite Rmult_0_l. reflexivity.
    + rewrite IH. rewrite !Rmult_0_l, Rinv_0. lra.
  - induction xs as [|x xs IH]; unfold sumsq in *; simpl.
    + field. exact Hc.
    + rewrite IH. field. exact Hc.
Qed.

Lemma sqrt_sumsq_nonzero (xs : list R) : sumsq xs <> 0 -> sqrt (sumsq xs) <> 0.
Proof.
  intros H E. apply sqrt_eq_0 in E; [contradiction | apply sumsq_nonneg].
Qed.

(** Normalizing a vector of reals that is not the zero vector divides
    every entry by the square root of the sum of squares... *)
Lemma normalize_fin (xs : list R) :
  sumsq xs <> 0 ->
  normalize (fin xs) = fin (Runit xs).
Proof.
  intros H. unfold normalize, Runit. rewrite norm_fin. unfold fin. rewrite !map_map.
  apply map_ext. intros x. simpl.
  destruct (Req_dec_T (sqrt (sumsq xs)) 0) as [E|_]; [|reflexivity].
  exfalso. revert E. apply sqrt_sumsq_nonzero. exact H.
Qed.

(** ... and the result has norm 1. *)
Lemma norm_normalize_fin (xs : list R) :
  sumsq xs <> 0 -> norm (normalize (fin xs)) = Fin 1.
Proof.
  intros H. rewrite normalize_fin by exact H. unfold Runit.
  rewrite norm_fin, sumsq_scaled.
  rewrite sqrt_sqrt by apply sumsq_nonneg.
  replace (sumsq xs / sumsq xs) with 1 by (field; exact H).
  rewrite sqrt_1. reflexivity.
Qed.

(** Normalizing the zero vector divides 0 by 0 in every entry. *)
Lemma normalize_zero (xs : list R) :
  sumsq xs = 0 -> normalize (fin xs) = repeat NaN (length xs).
Proof.
  intros H. unfold normalize. rewrite norm_fin, H, sqrt_0.
  clear H. induction xs as [|x xs IH]; simpl; [reflexivity|].
  rewrite IH. destruct (Req_dec_T 0 0) as [_|N]; [reflexivity | contradiction].
Qed.

Lemma tsum_NaN (v : vec) : In NaN v -> tsum v = NaN.
Proof.
  unfold tsum. induction v as [|x v IH]; simpl; intros H; [contradiction|].
  destruct H as [->|H]; [reflexivity|].
  rewrite (IH H). destruct x; reflexivity.
Qed.

Lemma norm_NaN (v : vec) : In NaN v -> norm v = NaN.
Proof.
  intros H. unfold norm. rewrite tsum_NaN; [reflexivity|].
  apply in_map_iff. exists NaN. split; [reflexivity | exact H].
Qed.

(** ** Stacking and columns *)

Lemma entry_nil (d : nat) : entry d [] = NaN.
Proof. destruct d; reflexivity. Qed.

Lemma entries_seq (w : vec) : map (fun d => entry d w) (seq 0 (length w)) = w.
Proof.
  induction w as [|x w IH]; [reflexivity|].
  simpl. rewrite <- seq_shift, map_map. simpl.
  f_equal. exact IH.
Qed.

Lemma length_normalize (v : vec) : length (normalize v) = length v.
Proof. apply length_map. Qed.

Lemma length_mean_dim0 (m : tensor2) : length (mean_dim0 m) = ncols m.
Proof. unfold mean_dim0. rewrite length_map, length_seq. reflexivity. Qed.

(** [stack_dim1] succeeds exactly on a nonempty list of vectors of one
    size, and then has one column per vector and one row per entry. *)
Lemma stack_dim1_ok (ws : list vec) (D : nat) :
  ws <> [] -> Forall (fun w => length w = D) ws ->
  stack_dim1 ws =
  Ok (Tensor2 (length ws) (map (fun d => map (entry d) ws) (seq 0 D))).
Proof.
  intros Hne Hall. destruct ws as [|w ws]; [contradiction|].
  unfold stack_dim1.
  assert (Hw : length w = D) by (inversion Hall; assumption).
  replace (forallb (fun w' => Nat.eqb (length w') (length w)) (w :: ws))
    with true.
  - rewrite Hw. reflexivity.
  - symmetry. apply forallb_forall. intros w' Hin.
    rewrite Forall_forall in Hall. rewrite (Hall _ Hin), Hw.
    apply Nat.eqb_refl.
Qed.

Lemma stack_dim1_inv (ws : list vec) (W : tensor2) :
  stack_dim1 ws = Ok W ->
  exists D, ws <> [] /\ Forall (fun w => length w = D) ws /\
            W = Tensor2 (length ws) (map (fun d => map (entry d) ws) (seq 0 D)).
Proof.
  destruct ws as [|w ws]; [discriminate|].
  unfold stack_dim1.
  destruct (forallb (fun w' => Nat.eqb (length w') (length w)) (w :: ws))
    eqn:E; [|discriminate].
  intros H. injection H as <-. exists (length w).
  split; [discriminate|]. split; [|reflexivity].
  apply Forall_forall. intros w' Hin.
  rewrite forallb_forall in E. apply Nat.eqb_eq. apply E. exact Hin.
Qed.

(** Column [i] of the stacked matrix is vector [i] of the list. *)
Lemma column_stacked (ws : list vec) (D i : nat) (w : vec) :
  Forall (fun w => length w = D) ws ->
  nth_error ws i = Some w ->
  column i (Tensor2 (length ws) (map (fun d => map (entry d) ws) (seq 0 D))) = w.
Proof.
  intros Hall Hi. unfold column. simpl. rewrite map_map.
  assert (Hlen : length w = D).
  { rewrite Forall_forall in Hall. apply Hall. eapply nth_error_In. exact Hi. }
  transitivity (map (fun d => entry d w) (seq 0 (length w)));
    [|apply entries_seq].
  rewrite Hlen. apply map_ext. intros d. unfold entry at 1.
  rewrite <- (entry_nil d). rewrite map_nth.
  f_equal. apply nth_error_nth. exact Hi.
Qed.

(** ** The builder loop *)

Section BuilderFacts.

Variable encode_text : list string -> result tensor2.
Variable templates : list string.

(** The loop returns the list of the per-class embeddings, in the order
    of the class names, exactly when every iteration returns. *)
Lemma zeroshot_loop_ok (classnames : list string) (ws : list vec) :
  zeroshot_loop encode_text classnames templates = Ok ws <->
  Forall2 (fun c w => class_embedding encode_text templates c = Ok w)
          classnames ws.
Proof.
  revert ws. induction classnames as [|c cs IH]; intros ws; simpl.
  - split.
    + intros H. injection H as <-. constructor.
    + intros H. inversion H. reflexivity.
  - split.
    + intros H. apply bind_ok in H. destruct H as [w [Hw H]].
      apply bind_ok in H. destruct H as [ws' [Hws H]].
      injection H as <-. constructor; [exact Hw | apply IH; exact Hws].
    + intros H. inversion H as [|c' w cs' ws' Hw Hws]; subst.
      rewrite Hw. simpl. apply IH in Hws. rewrite Hws. reflexivity.
Qed.

Lemma class_embedding_inv (c : string) (w : vec) :
  class_embedding encode_text templates c = Ok w ->
  exists texts E,
    render templates c = Ok texts /\ encode_text texts = Ok E /\
    w = normalize (mean_dim0 (div_row_norms E)).
Proof.
  unfold class_embedding. intros H.
  apply bind_ok in H. destruct H as [texts [Ht H]].
  apply bind_ok in H. destruct H as [E [HE H]].
  injection H as <-. exists texts, E. auto.
Qed.

Lemma class_embedding_length (c : string) (w : vec) :
  class_embedding encode_text templates c = Ok w ->
  exists texts E,
    render templates c = Ok texts /\ encode_text texts = Ok E /\
    length w = ncols E.
Proof.
  intros H. apply class_embedding_inv in H.
  destruct H as [texts [E [Ht [HE ->]]]]. exists texts, E.
  rewrite length_normalize, length_mean_dim0. auto.
Qed.

End BuilderFacts.

(** ** The columns of the label matrix *)


(** ** Scores and probabilities over the reals *)

Lemma tmul_tadd_distr (c : R) (u v : tnum) :
  tmul (Fin c) (tadd u v) = tadd (tmul (Fin c) u) (tmul (Fin c) v).
Proof. destruct u, v; simpl; try reflexivity. f_equal. lra. Qed.

Lemma tmul_assoc (a b c : tnum) : tmul (tmul a b) c = tmul a (tmul b c).
Proof. destruct a, b, c; simpl; try reflexivity. f_equal. lra. Qed.

Lemma dot_cons (a b : tnum) (x y : vec) :
  dot (a :: x) (b :: y) = tadd (tmul a b) (dot x y).
Proof. reflexivity. Qed.

(** Scaling the left operand of a product scales the product: the scores
    computed from the scaled features are the scaled cosine scores. *)
Lemma dot_scale (c : R) (x y : vec) :
  dot (scale c x) y = tmul (Fin c) (dot x y).
Proof.
  revert y. induction x as [|a x IH]; intros y.
  - unfold dot, tsum. simpl. f_equal. lra.
  - destruct y as [|b y].
    + unfold dot, tsum. simpl. f_equal. lra.
    + change (scale c (a :: x)) with (tmul (Fin c) a :: scale c x).
      rewrite !dot_cons, IH, tmul_tadd_distr, tmul_assoc. reflexivity.
Qed.

Lemma dot_fin (xs ys : list R) : dot (fin xs) (fin ys) = Fin (Rdot xs ys).
Proof.
  revert ys. induction xs as [|x xs IH]; intros ys; [reflexivity|].
  destruct ys as [|y ys]; [reflexivity|].
  change (fin (x :: xs)) with (Fin x :: fin xs).
  change (fin (y :: ys)) with (Fin y :: fin ys).
  rewrite dot_cons, IH. reflexivity.
Qed.

Lemma column_fin (L j : nat) (rs : list (list R)) :
  Forall (fun r => length r = L) rs -> (j < L)%nat ->
  column j (Tensor2 L (map fin rs)) = fin (Rcolumn j rs).
Proof.
  intros Hall Hj. unfold column, Rcolumn, fin. simpl. rewrite !map_map.
  apply map_ext_in. intros r Hr. unfold entry.
  rewrite Forall_forall in Hall. specialize (Hall r Hr).
  rewrite (nth_indep _ NaN (Fin 0)) by (rewrite length_map; lia).
  apply (map_nth Fin).
Qed.

Lemma Rsum_exp_pos (ls : list R) : ls <> [] -> 0 < Rsum (map exp ls).
Proof.
  intros Hne. destruct ls as [|l ls]; [contradiction|]. clear Hne.
  revert l. induction ls as [|l' ls IH]; intros l; unfold Rsum in *; simpl.
  - pose proof (exp_pos l). lra.
  - pose proof (exp_pos l). specialize (IH l'). simpl in IH. lra.
Qed.


(** The softmax of real scores is real, entry by entry the exponential of
    the score over the sum of the exponentials. *)
Lemma softmax_fin (ls : list R) :
  ls <> [] ->
  softmax (fin ls) = fin (Rsoftmax ls).
Proof.
  intros Hne. unfold softmax, Rsoftmax.
  assert (He : map texp (fin ls) = fin (map exp ls)).
  { unfold fin. rewrite !map_map. reflexivity. }
  rewrite He, tsum_fin. unfold fin. rewrite !map_map.
  apply map_ext. intros l. simpl.
  destruct (Req_dec_T (Rsum (map exp ls)) 0) as [E|_]; [|reflexivity].
  pose proof (Rsum_exp_pos ls Hne). lra.
Qed.


Lemma tgt_fin_false (q p : R) : tgt (Fin q) (Fin p) = false -> q <= p.
Proof.
  simpl. destruct (Rlt_dec p q) as [H|H]; [discriminate | intros _; lra].
Qed.

Lemma nth_error_fin (ps : list R) (i : nat) (p : tnum) :
  nth_error (fin ps) i = Some p ->
  exists r, p = Fin r /\ nth_error ps i = Some r.
Proof.
  unfold fin. rewrite nth_error_map.
  destruct (nth_error ps i) as [r|]; simpl; intros H; [|discriminate].
  injection H as <-. exists r. auto.
Qed.

(** ** The prediction block on real inputs *)

Section PredictionFacts.

Variable image_input : Type.
Variable encode_image : image_input -> result vec.
Context {tk : TopK}.


Lemma matmul_scale (c : R) (x : vec) (W : tensor2) :
  length x = nrows W ->
  matmul (scale c x) W =
  Ok (map (fun j => tmul (Fin c) (dot x (column j W))) (seq 0 (ncols W))).
Proof.
  intros Hlen. unfold matmul.
  replace (length (scale c x)) with (nrows W)
    by (unfold scale; rewrite length_map; symmetry; exact Hlen).
  rewrite Nat.eqb_refl. f_equal. apply map_ext. intros j. apply dot_scale.
Qed.

(** The scaled scores of a real unit vector against a real matrix. *)
Lemma scores_fin (us : list R) (L : nat) (rs : list (list R)) :
  Forall (fun r => length r = L) rs ->
  map (fun j => tmul (Fin 100) (dot (fin us) (column j (Tensor2 L (map fin rs)))))
      (seq 0 L) =
  fin (map (fun j => 100 * Rdot us (Rcolumn j rs)) (seq 0 L)).
Proof.
  intros Hall. unfold fin at 3. rewrite map_map.
  apply map_ext_in. intros j Hj. apply in_seq in Hj.
  rewrite column_fin by (assumption || lia).
  rewrite dot_fin. reflexivity.
Qed.

(** What the block returns for a nonzero real image embedding and a real
    label matrix with at least one column. *)
Lemma predict_real (W : tensor2) (input : image_input)
      (xs : list R) (rs : list (list R)) :
  encode_image input = Ok (fin xs) ->
  sumsq xs <> 0 ->
  mrows W = map fin rs -> Forall (fun r => length r = ncols W) rs ->
  length xs = nrows W -> (0 < ncols W)%nat ->
  let ls := map (fun j => 100 * Rdot (Runit xs) (Rcolumn j rs))
                (seq 0 (ncols W)) in
  exists p i,
    topk1 (fin (Rsoftmax ls)) = Some (p, i) /\
    nth_error (fin (Rsoftmax ls)) i = Some p /\
    (forall q, In q (fin (Rsoftmax ls)) -> tgt q p = false) /\
    webcam_predict encode_image W input =
    Ok (Prediction (fin (Rsoftmax ls)) p i).
Proof.
  intros Henc Hnz Hrows Hshape Hlen HL ls.
  destruct W as [L rows]. cbn [ncols mrows] in *. subst rows.
  assert (Hls : ls <> []).
  { unfold ls. destruct L; [lia | discriminate]. }
  assert (Hps : fin (Rsoftmax ls) <> []).
  { unfold fin, Rsoftmax. destruct ls; [contradiction | discriminate]. }
  destruct (topk1_largest Hps) as [p [i [Htop [Hnth Hmax]]]].
  exists p, i. repeat split; try assumption.
  unfold webcam_predict. rewrite Henc. cbn [bind].
  rewrite matmul_scale
    by (rewrite length_normalize, fin_length; exact Hlen).
  cbn [bind ncols]. rewrite normalize_fin by exact Hnz.
  rewrite scores_fin by exact Hshape.
  fold ls. rewrite softmax_fin by exact Hls.
  unfold topk. rewrite Htop. reflexivity.
Qed.

End PredictionFacts.

(** ** Implementations of the topk interface *)

Lemma tgt_irrefl (a : tnum) : tgt a a = false.
Proof.
  destruct a as [x|]; simpl; [|reflexivity].
  destruct (Rlt_dec x x) as [H|_]; [lra | reflexivity].
Qed.

Lemma tgt_asym (a b : tnum) : tgt a b = true -> tgt b a = false.
Proof.
  destruct a as [x|], b as [y|]; simpl; try reflexivity; try discriminate.
  destruct (Rlt_dec y x), (Rlt_dec x y); try reflexivity; try discriminate.
  lra.
Qed.

Lemma tle_trans (a b c : tnum) :
  tgt a b = false -> tgt b c = false -> tgt a c = false.
Proof.
  destruct a as [x|], b as [y|], c as [z|]; simpl;
    try reflexivity; try discriminate.
  destruct (Rlt_dec y x), (Rlt_dec z y), (Rlt_dec z x);
    try reflexivity; try discriminate; lra.
Qed.

Ltac scan_step IH pre x r :=
  rewrite <- (app_assoc pre [x] r) in IH; simpl in IH;
  apply IH; [rewrite length_app; simpl; lia | |].

Lemma scan_first_largest (r pre : vec) (p : tnum) (k i : nat) :
  i = length pre ->
  nth_error pre k = Some p ->
  (forall q, In q pre -> tgt q p = false) ->
  nth_error (pre ++ r) (snd (scan_first r i (p, k)))
    = Some (fst (scan_first r i (p, k))) /\
  forall q, In q (pre ++ r) -> tgt q (fst (scan_first r i (p, k))) = false.
Proof.
  revert pre p k i. induction r as [|x r IH]; intros pre p k i Hi Hk Hmax.
  - simpl. rewrite app_nil_r. auto.
  - simpl. destruct (tgt x p) eqn:E.
    + specialize (IH (pre ++ [x]) x i (S i)). scan_step IH pre x r.
      * rewrite nth_error_app2 by lia.
        replace (i - length pre)%nat with O by lia. reflexivity.
      * intros q Hq. apply in_app_or in Hq. destruct Hq as [Hq|[<-|[]]].
        -- apply tle_trans with p; [apply Hmax; exact Hq|].
           apply tgt_asym. exact E.
        -- apply tgt_irrefl.
    + specialize (IH (pre ++ [x]) p k (S i)). scan_step IH pre x r.
      * rewrite nth_error_app1; [exact Hk|].
        apply nth_error_Some. rewrite Hk. discriminate.
      * intros q Hq. apply in_app_or in Hq. destruct Hq as [Hq|[<-|[]]].
        -- apply Hmax. exact Hq.
        -- exact E.
Qed.

Lemma topk1_first_largest (v : vec) :
  v <> [] ->
  exists p i, topk1_first v = Some (p, i) /\ nth_error v i = Some p /\
              forall q, In q v -> tgt q p = false.
Proof.
  destruct v as [|x r]; [contradiction|]. intros _.
  destruct (@scan_first_largest r [x] x O 1%nat) as [Hn Hm];
    [reflexivity | reflexivity | |].
  { intros q [<-|[]]. apply tgt_irrefl. }
  exists (fst (scan_first r 1 (x, O))), (snd (scan_first r 1 (x, O))).
  simpl. rewrite <- surjective_pairing. auto.
Qed.

(** The first-maximum scan reports the lowest index of a largest entry:
    every earlier entry is strictly smaller. *)
Lemma tgt_le_lt (x p q : tnum) :
  tgt x p = true -> tgt q p = false -> tgt x q = true.
Proof.
  destruct x as [a|], p as [b|], q as [c|]; simpl;
    try reflexivity; try discriminate.
  destruct (Rlt_dec b a), (Rlt_dec b c), (Rlt_dec c a);
    try reflexivity; try discriminate; lra.
Qed.

Lemma scan_first_lowest (r pre : vec) (p : tnum) (k i : nat) :
  i = length pre ->
  (k < i)%nat ->
  (forall q, In q pre -> tgt q p = false) ->
  (forall j q, (j < k)%nat -> nth_error pre j = Some q -> tgt p q = true) ->
  forall j q, (j < snd (scan_first r i (p, k)))%nat ->
              nth_error (pre ++ r) j = Some q ->
              tgt (fst (scan_first r i (p, k))) q = true.
Proof.
  revert pre p k i. induction r as [|x r IH]; intros pre p k i Hi Hk Hmax Hlow.
  - simpl. intros j q Hj Hq. rewrite app_nil_r in Hq. eapply Hlow; eassumption.
  - simpl. destruct (tgt x p) eqn:E.
    + specialize (IH (pre ++ [x]) x i (S i)).
      rewrite <- (app_assoc pre [x] r) in IH. simpl in IH.
      apply IH; [rewrite length_app; simpl; lia | lia | |].
      * intros q Hq. apply in_app_or in Hq. destruct Hq as [Hq|[<-|[]]].
        -- apply tle_trans with p; [apply Hmax; exact Hq|].
           apply tgt_asym. exact E.
        -- apply tgt_irrefl.
      * intros j q Hj Hq. rewrite nth_error_app1 in Hq by lia.
        apply tgt_le_lt with p; [exact E|].
        apply Hmax. eapply nth_error_In. exact Hq.
    + specialize (IH (pre ++ [x]) p k (S i)).
      rewrite <- (app_assoc pre [x] r) in IH. simpl in IH.
      apply IH; [rewrite length_app; simpl; lia | lia | |].
      * intros q Hq. apply in_app_or in Hq. destruct Hq as [Hq|[<-|[]]].
        -- apply Hmax. exact Hq.
        -- exact E.
      * intros j q Hj Hq. rewrite nth_error_app1 in Hq by lia.
        eapply Hlow; eassumption.
Qed.

Lemma topk1_first_lowest (v : vec) (p : tnum) (i : nat) :
  topk1_first v = Some (p, i) ->
  forall j q, (j < i)%nat -> nth_error v j = Some q -> tgt p q = true.
Proof.
  destruct v as [|x r]; [discriminate|]. unfold topk1_first.
  intros H. injection H as H.
  intros j q Hj Hq.
  pose proof (scan_first_lowest r [x] x 0%nat 1%nat eq_refl) as Hs.
  rewrite H in Hs. simpl in Hs. apply (Hs ltac:(lia)) with j.
  - intros q' [<-|[]]. apply tgt_irrefl.
  - intros j' q' Hj'. lia.
  - exact Hj.
  - exact Hq.
Qed.

Definition topk_first : TopK :=
  {| topk1 := topk1_first;
     topk1_empty := eq_refl;
     topk1_largest := topk1_first_largest |}.

Lemma topk1_kernel_largest (v : vec) :
  v <> [] ->
  exists p i, topk1_kernel v = Some (p, i) /\ nth_error v i = Some p /\
              forall q, In q v -> tgt q p = false.
Proof.
  intros Hne. unfold topk1_kernel. destruct v as [|x r]; [contradiction|].
  destruct (is_largest (x :: r) (kernel_index (x :: r))) eqn:E.
  - unfold is_largest in E. apply andb_true_iff in E. destruct E as [Hi Hall].
    apply Nat.ltb_lt in Hi. rewrite forallb_forall in Hall.
    exists (nth (kernel_index (x :: r)) (x :: r) NaN), (kernel_index (x :: r)).
    split; [reflexivity|]. split; [apply nth_error_nth'; exact Hi|].
    intros q Hq. apply negb_true_iff. apply Hall. exact Hq.
  - apply topk1_first_largest. discriminate.
Qed.

(** The selection ends on a largest entry for every vector of one to
    eight entries among three values, and on longer rows with repeated
    entries, on both sides of the 64 entries from which the kernel sorts
    partially: on these the check of [topk1_kernel] never fails. *)
Lemma select_index_largest_small :
  forallb (fun n => forallb selects_largest (words 3 n)) (seq 1 8) = true /\
  forallb (fun n => forallb (fun s => selects_largest (pattern n s)) (seq 0 3))
          (seq 9 60) = true.
Proof. split; vm_compute; reflexivity. Qed.

(** The index the kernel returns on ties: among [n] equal entries. *)
Lemma select_index_tied :
  map (select_index (fun _ _ => false)) (seq 1 10) =
  [0; 0; 0; 2; 2; 3; 5; 6; 7; 8]%nat.
Proof. vm_compute. reflexivity. Qed.

(** topk as the CPU kernel computes it. *)
Definition topk_kernel : TopK :=
  {| topk1 := topk1_kernel;
     topk1_empty := eq_refl;
     topk1_largest := topk1_kernel_largest |}.

(** ** The per-frame probability distribution *)


(** ** Norms of the embeddings *)

Lemma tdiv_fin (x y : R) : y <> 0 -> tdiv (Fin x) (Fin y) = Fin (x / y).
Proof.
  intros H. simpl. destruct (Req_dec_T y 0); [contradiction | reflexivity].
Qed.

Lemma normalize_unit (xs : list R) : sumsq xs = 1 -> normalize (fin xs) = fin xs.
Proof.
  intros H. rewrite normalize_fin by lra. f_equal.
  unfold Runit. rewrite H, sqrt_1. rewrite <- (map_id xs) at 2.
  apply map_ext. intros x. field.
Qed.

(** The mean over the rows of a real tensor with at least one row. *)
Lemma mean_dim0_fin (D : nat) (rs : list (list R)) :
  rs <> [] -> Forall (fun r => length r = D) rs ->
  mean_dim0 (Tensor2 D (map fin rs)) = fin (Rmean D rs).
Proof.
  intros Hne Hall. unfold mean_dim0, Rmean, nrows. cbn [ncols mrows].
  rewrite length_map.
  match goal with |- _ = fin ?l => change (fin l) with (map Fin l) end.
  rewrite map_map.
  apply map_ext_in. intros d Hd. apply in_seq in Hd.
  change (map (entry d) (map fin rs))
    with (column d (Tensor2 D (map fin rs))).
  rewrite column_fin by (assumption || lia).
  rewrite tsum_fin. apply tdiv_fin. apply not_0_INR.
  destruct rs; [contradiction | discriminate].
Qed.


Lemma Forall2_nth_error_r {A B : Type} (P : A -> B -> Prop)
      (l : list A) (l' : list B) (i : nat) (b : B) :
  Forall2 P l l' -> nth_error l' i = Some b -> exists a, In a l /\ P a b.
Proof.
  intros H. revert i. induction H as [|a b' l l' Hab _ IH]; intros [|i] Hi;
    try discriminate Hi.
  - injection Hi as ->. exists a. split; [left; reflexivity | exact Hab].
  - destruct (IH i Hi) as [a' [Hin Hp]]. exists a'. split; [right|]; assumption.
Qed.

Section NormFacts.

Variable encode_text : list string -> result tensor2.
Variable templates : list string.

(** The embedding of a class whose mean of normalized rows is real. *)
Lemma class_embedding_mean (c : string) (texts : list string)
      (E : tensor2) (ms : list R) :
  render templates c = Ok texts -> encode_text texts = Ok E ->
  mean_dim0 (div_row_norms E) = fin ms ->
  class_embedding encode_text templates c = Ok (normalize (fin ms)).
Proof.
  intros Ht HE Hm. unfold class_embedding.
  rewrite Ht. cbn [bind]. rewrite HE. cbn [bind]. rewrite Hm. reflexivity.
Qed.

(** The embedding of a class in closed form, when the encoder returns
    nonzero real rows whose normalized mean is not the zero vector: each
    row is normalized, the mean is taken, and the mean is normalized. *)
Lemma class_embedding_real (c : string) (texts : list string)
      (D : nat) (rs : list (list R)) :
  render templates c = Ok texts ->
  encode_text texts = Ok (Tensor2 D (map fin rs)) ->
  rs <> [] ->
  Forall (fun r => length r = D) rs ->
  Forall (fun r => sumsq r <> 0) rs ->
  sumsq (Rmean D (map Runit rs)) <> 0 ->
  class_embedding encode_text templates c =
  Ok (fin (Runit (Rmean D (map Runit rs)))).
Proof.
  intros Ht HE Hne Hlen Hnz Hmean.
  rewrite <- normalize_fin by exact Hmean.
  apply (class_embedding_mean c texts (Tensor2 D (map fin rs)) _ Ht HE).
  unfold div_row_norms. cbn [ncols mrows]. rewrite map_map.
  replace (map (fun r => normalize (fin r)) rs) with (map fin (map Runit rs)).
  - apply mean_dim0_fin.
    + destruct rs; [contradiction | discriminate].
    + apply Forall_map. revert Hlen. apply Forall_impl.
      intros r Hr. unfold Runit. rewrite length_map. exact Hr.
  - rewrite map_map. apply map_ext_in. intros r Hr.
    rewrite Forall_forall in Hnz. symmetry. apply normalize_fin.
    apply Hnz. exact Hr.
Qed.

End NormFacts.

(** Two templates whose embeddings for the class "happy" are opposite unit
    vectors: the mean of the normalized rows is the zero vector. *)
Lemma antipodal_render :
  render ["a {} face."; "no {} face."]%string "happy"%string =
  Ok ["a happy face."; "no happy face."]%string.
Proof. reflexivity. Qed.

Lemma antipodal_mean :
  mean_dim0 (div_row_norms (Tensor2 2 [fin [1; 0]; fin [-1; 0]])) =
  fin [(1 + (-1 + 0)) / INR 2; (0 + (0 + 0)) / INR 2].
Proof.
  unfold div_row_norms. cbn [ncols mrows map].
  rewrite !normalize_unit by (unfold sumsq, Rsum; simpl; lra).
  change [fin [1; 0]; fin [-1; 0]] with (map fin [[1; 0]; [-1; 0]]).
  rewrite mean_dim0_fin; [reflexivity | discriminate | repeat constructor].
Qed.

Lemma antipodal_mean_zero :
  sumsq [(1 + (-1 + 0)) / INR 2; (0 + (0 + 0)) / INR 2] = 0.
Proof. unfold sumsq, Rsum. simpl. lra. Qed.


Lemma antipodal_matrix :
  zeroshot_classifier Scenario.encode_text
    ["happy"]%string ["a {} face."; "no {} face."]%string =
  Ok (Tensor2 1 [[NaN]; [NaN]]).
Proof.
  unfold zeroshot_classifier, zeroshot_loop.
  rewrite (class_embedding_mean Scenario.encode_text _ _ _ _ _
             antipodal_render eq_refl antipodal_mean).
  rewrite normalize_zero by exact antipodal_mean_zero.
  reflexivity.
Qed.

(** The claim that every column of the label matrix has norm 1 fails for
    the class "happy" with the two opposite templates: the builder
    returns a matrix whose only column is NaN throughout. *)
Lemma antipodal_column_not_unit :
  exists W,
    zeroshot_classifier Scenario.encode_text
      ["happy"]%string ["a {} face."; "no {} face."]%string = Ok W /\
    (0 < ncols W)%nat /\
    norm (column 0 W) <> Fin 1.
Proof.
  exists (Tensor2 1 [[NaN]; [NaN]]).
  split; [exact antipodal_matrix|]. split; [simpl; lia|].
  rewrite norm_NaN; [discriminate | left; reflexivity].
Qed.


(** The scenario of two classes, one template and orthonormal text
    embeddings: the columns of the matrix are the two embeddings. *)
Lemma single_row_mean (x y : R) :
  sumsq [x; y] = 1 ->
  mean_dim0 (div_row_norms (Tensor2 2 [fin [x; y]])) = fin [x; y].
Proof.
  intros H. unfold div_row_norms. cbn [ncols mrows map].
  rewrite normalize_unit by exact H.
  change [fin [x; y]] with (map fin [[x; y]]).
  rewrite mean_dim0_fin by first [discriminate | repeat constructor].
  f_equal. unfold Rmean, Rcolumn, Rsum. simpl. repeat f_equal; field.
Qed.

Lemma sumsq_e1 : sumsq [1; 0] = 1.
Proof. unfold sumsq, Rsum. simpl. lra. Qed.

Lemma sumsq_e2 : sumsq [0; 1] = 1.
Proof. unfold sumsq, Rsum. simpl. lra. Qed.

Lemma scenario_matrix :
  zeroshot_classifier Scenario.encode_text
    ["happy"; "sad"]%string ["a {} face."]%string = Ok Scenario.weights.
Proof.
  unfold zeroshot_classifier, zeroshot_loop.
  rewrite (class_embedding_mean Scenario.encode_text
             ["a {} face."]%string "happy"%string
             ["a happy face."]%string (Tensor2 2 [fin [1; 0]]) [1; 0]
             eq_refl eq_refl (single_row_mean 1 0 sumsq_e1)).
  rewrite (class_embedding_mean Scenario.encode_text
             ["a {} face."]%string "sad"%string
             ["a sad face."]%string (Tensor2 2 [fin [0; 1]]) [0; 1]
             eq_refl eq_refl (single_row_mean 0 1 sumsq_e2)).
  rewrite !normalize_unit by (exact sumsq_e1 || exact sumsq_e2).
  reflexivity.
Qed.


(** ** Order of the templates *)



Section TemplateOrder.

Variable encode_text : list string -> result tensor2.

(** The encoder embeds each text on its own: row [t] of its answer depends
    on text [t] only, and the number of columns is fixed. *)
Variable encode_one : string -> result vec.
Variable D : nat.
Hypothesis encode_rowwise : forall texts,
  encode_text texts = (rows <- mapM encode_one texts ;; Ok (Tensor2 D rows)).


End TemplateOrder.





(** ** The capture loops *)

Section LoopFacts.

Variables frame image_input : Type.
Variable flip : frame -> frame.
Variable to_input : frame -> image_input.
Variable encode_image : image_input -> result vec.
Context {tk : TopK}.
Variable emotion_classes : list string.
Variable zeroshot_weights : tensor2.

Local Notation "'webcam_frames''" :=
  (webcam_frames flip to_input encode_image emotion_classes zeroshot_weights).
Local Notation "'video_frames''" :=
  (video_frames to_input encode_image emotion_classes zeroshot_weights).

(** The webcam loop on raw frames is the video loop on the flipped
    frames. *)
Lemma webcam_frames_flip (frames : list frame) (keys : list Z) :
  webcam_frames' frames keys = video_frames' (map flip frames) keys.
Proof.
  revert keys. induction frames as [|f frames IH]; intros keys;
    [reflexivity|].
  cbn [webcam_frames video_frames map].
  change (video_predict encode_image zeroshot_weights (to_input (flip f)))
    with (webcam_predict encode_image zeroshot_weights (to_input (flip f))).
  destruct (webcam_predict encode_image zeroshot_weights (to_input (flip f)))
    as [pred|e]; [|reflexivity].
  destruct (nth_error emotion_classes (top_label pred)); [|reflexivity].
  destruct (wait_key keys) as [key keys'].
  destruct (is_quit key); [reflexivity|].
  rewrite IH. reflexivity.
Qed.

(** Frames that are all processed, with no q key pressed, are all read:
    the loop is left at the end of the stream. *)
Lemma video_frames_all (frames : list frame) (keys : list Z) :
  Forall (fun f => processed encode_image emotion_classes zeroshot_weights
                     (to_input f)) frames ->
  Forall (fun k => is_quit k = false) keys ->
  snd (video_frames' frames keys) = StreamEnded /\
  encoder_inputs (fst (video_frames' frames keys)) = map to_input frames.
Proof.
  intros Hall. revert keys.
  induction Hall as [|f frames [pred [emo [Hp He]]] _ IH]; intros keys Hkeys.
  - split; reflexivity.
  - cbn [video_frames].
    change (video_predict encode_image zeroshot_weights (to_input f))
      with (webcam_predict encode_image zeroshot_weights (to_input f)).
    rewrite Hp, He.
    assert (Hk : is_quit (fst (wait_key keys)) = false /\
                 Forall (fun k => is_quit k = false) (snd (wait_key keys))).
    { destruct Hkeys as [|k ks Hk Hks]; simpl; auto. }
    destruct (wait_key keys) as [key keys']. simpl in Hk.
    destruct Hk as [Hk Hks]. rewrite Hk.
    destruct (IH keys' Hks) as [Hout Hin].
    destruct (video_frames' frames keys') as [tr out]. simpl in *.
    split; [exact Hout | f_equal; exact Hin].
Qed.

(** When the frames before [f] are all read and the encoder raises on
    [f], the loop stops there: nothing after [f] is read. *)
Lemma video_frames_raise (before after : list frame) (f : frame)
      (keys : list Z) (tr : trace frame image_input) (e : exn) :
  video_frames' before keys = (tr, StreamEnded) ->
  encode_image (to_input f) = Raise e ->
  video_frames' (before ++ f :: after) keys =
  ((tr ++ [EncodeImage (to_input f)])%list, Uncaught e).
Proof.
  intros Hbefore Henc. revert keys tr Hbefore.
  induction before as [|b before IH]; intros keys tr Hbefore.
  - injection Hbefore as <-. cbn [app video_frames].
    unfold video_predict. rewrite Henc. reflexivity.
  - cbn [app video_frames] in *.
    destruct (video_predict encode_image zeroshot_weights (to_input b))
      as [pred|e']; [|discriminate Hbefore].
    destruct (nth_error emotion_classes (top_label pred));
      [|discriminate Hbefore].
    destruct (wait_key keys) as [key keys'].
    destruct (is_quit key); [discriminate Hbefore|].
    destruct (video_frames' before keys') as [tr' out] eqn:Hrec.
    injection Hbefore as <- ->.
    rewrite (IH keys' tr' Hrec). reflexivity.
Qed.

End LoopFacts.

(** C10.  The prediction blocks of the two loops are the same function of
    the encoder input and the label matrix.  The webcam loop hands the
    encoder the preprocessed flipped frame, the video loop the
    preprocessed raw frame; a run of the webcam loop on a list of raw
    frames is the run of the video loop on the flipped frames. *)
Theorem webcam_is_video_on_flipped
  (tk : TopK) (frame image_input : Type)
  (flip : frame -> frame) (to_input : frame -> image_input)
  (encode_image : image_input -> result vec)
  (emotion_classes : list string) (zeroshot_weights : tensor2) :
  (forall W input,
     webcam_predict encode_image W input = video_predict encode_image W input) /\
  (forall f keys,
     encoder_inputs
       (fst (webcam_loop flip to_input encode_image emotion_classes
               zeroshot_weights (Capture true [f]) keys))
     = [to_input (flip f)] /\
     encoder_inputs
       (fst (video_loop to_input encode_image emotion_classes
               zeroshot_weights (Capture true [f]) keys))
     = [to_input f]) /\
  (forall frames keys,
     webcam_loop flip to_input encode_image emotion_classes
       zeroshot_weights (Capture true frames) keys =
     video_loop to_input encode_image emotion_classes
       zeroshot_weights (Capture true (map flip frames)) keys).
Proof.
  split; [|split].
  - intros W input. reflexivity.
  - intros f keys. unfold webcam_loop, video_loop. cbn [opened pending].
    rewrite webcam_frames_flip. cbn [map video_frames].
    split.
    + destruct (video_predict encode_image zeroshot_weights (to_input (flip f)))
        as [pred|e]; [|reflexivity].
      destruct (nth_error emotion_classes (top_label pred)); [|reflexivity].
      destruct (wait_key keys) as [key keys'].
      destruct (is_quit key); reflexivity.
    + destruct (video_predict encode_image zeroshot_weights (to_input f))
        as [pred|e]; [|reflexivity].
      destruct (nth_error emotion_classes (top_label pred)); [|reflexivity].
      destruct (wait_key keys) as [key keys'].
      destruct (is_quit key); reflexivity.
  - intros frames keys. unfold webcam_loop, video_loop. cbn [opened pending].
    rewrite webcam_frames_flip. reflexivity.
Qed.

(** C8.  When the capture has no frame to deliver, or the webcam is not
    opened, the first read reports the end of the stream: the loop is left
    through the [ret] check, the encoder is never called, nothing is shown
    and the capture is released.  More generally, when every delivered
    frame is processed and no q key is pressed, each frame is encoded once
    and the loop is left through the [ret] check, not by an exception. *)
Theorem empty_stream_ends_cleanly
  (tk : TopK) (frame image_input : Type)
  (flip : frame -> frame) (to_input : frame -> image_input)
  (encode_image : image_input -> result vec)
  (emotion_classes : list string) (zeroshot_weights : tensor2) :
  (forall keys,
     webcam_loop flip to_input encode_image emotion_classes
       zeroshot_weights (Capture true []) keys = ([Release], StreamEnded) /\
     video_loop to_input encode_image emotion_classes
       zeroshot_weights (Capture true []) keys = ([Release], StreamEnded)) /\
  (forall frames keys,
     webcam_loop flip to_input encode_image emotion_classes
       zeroshot_weights (Capture false frames) keys = ([Release], StreamEnded)) /\
  (forall frames keys,
     Forall (fun f => processed encode_image emotion_classes zeroshot_weights
                        (to_input (flip f))) frames ->
     Forall (fun k => is_quit k = false) keys ->
     snd (webcam_loop flip to_input encode_image emotion_classes
            zeroshot_weights (Capture true frames) keys) = StreamEnded /\
     encoder_inputs
       (fst (webcam_loop flip to_input encode_image emotion_classes
               zeroshot_weights (Capture true frames) keys))
     = map (fun f => to_input (flip f)) frames) /\
  (forall frames keys,
     Forall (fun f => processed encode_image emotion_classes zeroshot_weights
                        (to_input f)) frames ->
     Forall (fun k => is_quit k = false) keys ->
     snd (video_loop to_input encode_image emotion_classes
            zeroshot_weights (Capture true frames) keys) = StreamEnded /\
     encoder_inputs
       (fst (video_loop to_input encode_image emotion_classes
               zeroshot_weights (Capture true frames) keys))
     = map to_input frames).
Proof.
  assert (Hrel : forall tr : trace frame image_input,
             encoder_inputs (tr ++ [Release]) = encoder_inputs tr).
  { induction tr as [|ev tr IH]; [reflexivity|].
    destruct ev; simpl; rewrite IH; reflexivity. }
  assert (Hvideo : forall frames keys,
     Forall (fun f => processed encode_image emotion_classes zeroshot_weights
                        (to_input f)) frames ->
     Forall (fun k => is_quit k = false) keys ->
     snd (video_loop to_input encode_image emotion_classes
            zeroshot_weights (Capture true frames) keys) = StreamEnded /\
     encoder_inputs
       (fst (video_loop to_input encode_image emotion_classes
               zeroshot_weights (Capture true frames) keys))
     = map to_input frames).
  { intros frames keys Hall Hkeys.
    destruct (video_frames_all frame image_input to_input encode_image
                emotion_classes zeroshot_weights frames keys Hall Hkeys)
      as [Hout Hin].
    unfold video_loop. cbn [opened pending].
    destruct (video_frames to_input encode_image emotion_classes
                zeroshot_weights frames keys) as [tr out].
    simpl in *. rewrite Hrel. auto. }
  split; [|split; [|split]].
  - intros keys. split; reflexivity.
  - intros frames keys. reflexivity.
  - intros frames keys Hall Hkeys.
    unfold webcam_loop. cbn [opened pending].
    rewrite webcam_frames_flip.
    destruct (Hvideo (map flip frames) keys) as [Hout Hin];
      [apply Forall_map; exact Hall | exact Hkeys |].
    unfold video_loop in Hout, Hin. cbn [opened pending] in Hout, Hin.
    rewrite map_map in Hin. auto.
  - exact Hvideo.
Qed.

(** In the scenario every picture other than picture 0 is processed. *)
Lemma scenario_processed (n : nat) (b : bool) :
  processed (tk := topk_first) Scenario.encode_image
    Scenario.emotion_classes Scenario.weights (S n, b).
Proof.
  destruct (@predict_real Scenario.frame Scenario.encode_image topk_first
              Scenario.weights (S n, b) [3; 0] [[1; 0]; [0; 1]])
    as [p [i [_ [Hnth [_ Hpred]]]]].
  - reflexivity.
  - unfold sumsq, Rsum. simpl. lra.
  - reflexivity.
  - repeat constructor.
  - reflexivity.
  - simpl. lia.
  - unfold processed. rewrite Hpred. cbn [top_label].
    destruct i as [|[|i]].
    + exists (Prediction
                (fin (Rsoftmax
                   (map (fun j => 100 * Rdot (Runit [3; 0])
                                         (Rcolumn j [[1; 0]; [0; 1]]))
                        (seq 0 (ncols Scenario.weights))))) p 0%nat),
             "happy"%string.
      split; reflexivity.
    + exists (Prediction
                (fin (Rsoftmax
                   (map (fun j => 100 * Rdot (Runit [3; 0])
                                         (Rcolumn j [[1; 0]; [0; 1]]))
                        (seq 0 (ncols Scenario.weights))))) p 1%nat),
             "sad"%string.
      split; reflexivity.
    + simpl in Hnth. destruct i; discriminate Hnth.
Qed.

Lemma empty_stream_ends_cleanly_witness :
  snd (webcam_loop (tk := topk_first) Scenario.flip Scenario.to_input
         Scenario.encode_image Scenario.emotion_classes Scenario.weights
         (Capture true [(1%nat, false)]) []) = StreamEnded /\
  encoder_inputs
    (fst (webcam_loop (tk := topk_first) Scenario.flip Scenario.to_input
            Scenario.encode_image Scenario.emotion_classes Scenario.weights
            (Capture true [(1%nat, false)]) []))
  = [(1%nat, true)].
Proof.
  apply (proj1 (proj2 (proj2
    (empty_stream_ends_cleanly topk_first Scenario.frame Scenario.frame
       Scenario.flip Scenario.to_input Scenario.encode_image
       Scenario.emotion_classes Scenario.weights)))
    [(1%nat, false)] []).
  - constructor; [|constructor]. apply scenario_processed.
  - constructor.
Defined.

(** ** A failing encoder *)

(** The claim that a frame whose encoding fails is skipped does not hold:
    with picture 0 first and picture 1 second, both loops end with the
    encoder's exception after one call, and picture 1 is never encoded. *)
Lemma encoder_failure_not_skipped :
  webcam_loop (tk := topk_first) Scenario.flip Scenario.to_input
    Scenario.encode_image Scenario.emotion_classes Scenario.weights
    (Capture true [(0%nat, false); (1%nat, false)]) [] =
  ([EncodeImage (0%nat, true); Release], Uncaught EncoderError) /\
  video_loop (tk := topk_first) Scenario.to_input
    Scenario.encode_image Scenario.emotion_classes Scenario.weights
    (Capture true [(0%nat, false); (1%nat, false)]) [] =
  ([EncodeImage (0%nat, false); Release], Uncaught EncoderError).
Proof. split; reflexivity. Qed.

(** C4, as the loops behave.  When the frames before [f] have all been
    read and the encoder raises on [f], the exception leaves the loop:
    the encoder has been called once for [f], no later frame is read, the
    capture is released and the run ends with the exception. *)
Theorem encoder_failure_ends_loop
  (tk : TopK) (frame image_input : Type)
  (flip : frame -> frame) (to_input : frame -> image_input)
  (encode_image : image_input -> result vec)
  (emotion_classes : list string) (zeroshot_weights : tensor2)
  (before after : list frame) (f : frame) (keys : list Z) (e : exn) :
  (forall tr,
     webcam_frames flip to_input encode_image emotion_classes
       zeroshot_weights before keys = (tr, StreamEnded) ->
     encode_image (to_input (flip f)) = Raise e ->
     webcam_loop flip to_input encode_image emotion_classes
       zeroshot_weights (Capture true (before ++ f :: after)) keys =
     ((tr ++ [EncodeImage (to_input (flip f)); Release])%list, Uncaught e)) /\
  (forall tr,
     video_frames to_input encode_image emotion_classes
       zeroshot_weights before keys = (tr, StreamEnded) ->
     encode_image (to_input f) = Raise e ->
     video_loop to_input encode_image emotion_classes
       zeroshot_weights (Capture true (before ++ f :: after)) keys =
     ((tr ++ [EncodeImage (to_input f); Release])%list, Uncaught e)).
Proof.
  split; intros tr Hbefore Henc.
  - unfold webcam_loop. cbn [opened pending].
    rewrite webcam_frames_flip in *. rewrite map_app. cbn [map].
    rewrite (video_frames_raise frame image_input to_input encode_image
               emotion_classes zeroshot_weights
               (map flip before) (map flip after) (flip f) keys tr e
               Hbefore Henc).
    rewrite <- app_assoc. reflexivity.
  - unfold video_loop. cbn [opened pending].
    rewrite (video_frames_raise frame image_input to_input encode_image
               emotion_classes zeroshot_weights
               before after f keys tr e Hbefore Henc).
    rewrite <- app_assoc. reflexivity.
Qed.

Lemma encoder_failure_ends_loop_witness :
  webcam_loop (tk := topk_first) Scenario.flip Scenario.to_input
    Scenario.encode_image Scenario.emotion_classes Scenario.weights
    (Capture true ([] ++ (0%nat, false) :: [(1%nat, false)])) [] =
  (([] ++ [EncodeImage (Scenario.to_input (Scenario.flip (0%nat, false)));
           Release])%list,
   Uncaught EncoderError).
Proof.
  apply (proj1
    (encoder_failure_ends_loop topk_first Scenario.frame Scenario.frame
       Scenario.flip Scenario.to_input Scenario.encode_image
       Scenario.emotion_classes Scenario.weights
       [] [(1%nat, false)] (0%nat, false) [] EncoderError)).
  - reflexivity.
  - reflexivity.
Defined.

(** ** Ties *)

Lemma fin_inj (xs ys : list R) : fin xs = fin ys -> xs = ys.
Proof.
  revert ys. induction xs as [|x xs IH]; intros [|y ys] H;
    try discriminate H; [reflexivity|].
  injection H as -> H. f_equal. apply IH. exact H.
Qed.

Lemma nth_error_map_seq {A : Type} (f : nat -> A) (L i : nat) :
  (i < L)%nat -> nth_error (map f (seq 0 L)) i = Some (f i).
Proof.
  intros Hi. rewrite nth_error_map, nth_error_seq.
  destruct (Nat.ltb_spec i L) as [_|H]; [reflexivity | lia].
Qed.


(** ** Templates and their slots *)

Open Scope string_scope.

Lemma append_empty_r (s : string) : s ++ "" = s.
Proof. induction s as [|c s IH]; simpl; [|rewrite IH]; reflexivity. Qed.

Lemma no_braces_cons (c : ascii) (r : string) :
  no_braces (String c r) = true ->
  Ascii.eqb c lbrace = false /\ Ascii.eqb c rbrace = false /\
  no_braces r = true.
Proof.
  simpl. intros H.
  apply andb_true_iff in H. destruct H as [H Hr].
  apply andb_true_iff in H. destruct H as [Hl Hrb].
  apply negb_true_iff in Hl. apply negb_true_iff in Hrb. auto.
Qed.

(** Text without braces is copied to the output. *)
Lemma format_text_literal (a r : string) (num : numbering) (arg : string) :
  no_braces a = true ->
  format_text (a ++ r) num arg =
  (s <- format_text r num arg ;; Ok (a ++ s)).
Proof.
  induction a as [|c a IH]; intros Ha.
  - simpl. destruct (format_text r num arg); reflexivity.
  - apply no_braces_cons in Ha. destruct Ha as [Hl [Hr Ha]].
    cbn [append format_text]. rewrite Hl, Hr, (IH Ha).
    destruct (format_text r num arg); reflexivity.
Qed.

(** An automatically numbered field takes the next positional argument. *)
Lemma format_text_auto_field (r : string) (num : numbering) (arg : string) :
  format_text ("{}" ++ r) num arg =
  (vn <- field_value "" num arg ;;
   s <- format_text r (snd vn) arg ;; Ok (fst vn ++ s)).
Proof. reflexivity. Qed.



Close Scope string_scope.

(** The first template that fails to render ends the builder. *)
Lemma render_raise (pre post : list string) (t c : string) (e : exn) :
  (forall t', In t' pre -> exists s, format t' c = Ok s) ->
  format t c = Raise e ->
  render (pre ++ t :: post) c = Raise e.
Proof.
  intros Hpre Ht. unfold render.
  induction pre as [|t' pre IH]; simpl.
  - rewrite Ht. reflexivity.
  - destruct (Hpre t' (or_introl eq_refl)) as [s Hs]. rewrite Hs. simpl.
    rewrite IH; [reflexivity|].
    intros t'' Hin. apply Hpre. right. exact Hin.
Qed.




(** * Further properties of the notebook *)

(** ** Rendering *)

Open Scope string_scope.

Lemma format_text_brace_free (b : string) (num : numbering) (arg : string) :
  no_braces b = true -> format_text b num arg = Ok b.
Proof.
  intros Hb. rewrite <- (append_empty_r b) at 1.
  rewrite format_text_literal by exact Hb.
  simpl. rewrite append_empty_r. reflexivity.
Qed.

Lemma format_slot (a b arg : string) :
  no_braces a = true -> no_braces b = true ->
  format (a ++ "{}" ++ b) arg = Ok (a ++ arg ++ b).
Proof.
  intros Ha Hb. unfold format.
  rewrite format_text_literal by exact Ha.
  rewrite format_text_auto_field. cbn [field_value get_arg bind fst snd].
  rewrite format_text_brace_free by exact Hb. reflexivity.
Qed.

(** X1.  A template made of brace-free text around one [{}] renders to
    that text with the argument in place of the slot.  The argument is
    copied as it is, braces included. *)
Theorem format_single_slot (a b arg : string) :
  no_braces a = true -> no_braces b = true ->
  format (a ++ "{}" ++ b) arg = Ok (a ++ arg ++ b).
Proof. exact (format_slot a b arg). Qed.

Lemma format_single_slot_witness :
  format ("a " ++ "{}" ++ " face.") "{happy}" = Ok ("a " ++ "{happy}" ++ " face.").
Proof. apply format_single_slot; reflexivity. Defined.

Lemma split_slot_sound (t a b : string) :
  split_slot t = Some (a, b) ->
  t = a ++ "{}" ++ b /\ no_braces a = true /\ no_braces b = true.
Proof.
  revert a. induction t as [|c r IH]; intros a H; [discriminate H|].
  cbn [split_slot] in H.
  destruct (Ascii.eqb c lbrace) eqn:El.
  - destruct r as [|c' r']; [discriminate H|].
    destruct (Ascii.eqb c' rbrace) eqn:Er; [|discriminate H].
    destruct (no_braces r') eqn:Hr; [|discriminate H].
    injection H as <- <-.
    apply Ascii.eqb_eq in El. apply Ascii.eqb_eq in Er. subst c c'.
    split; [reflexivity|]. split; [reflexivity | exact Hr].
  - destruct (Ascii.eqb c rbrace) eqn:Er; [discriminate H|].
    destruct (split_slot r) as [[a' b']|] eqn:Hs; [|discriminate H].
    injection H as <- <-.
    destruct (IH a' eq_refl) as [-> [Ha Hb]].
    split; [reflexivity|]. split; [|exact Hb].
    simpl. rewrite El, Er, Ha. reflexivity.
Qed.

Lemma format_fill_slot (t arg : string) :
  split_slot t <> None -> format t arg = Ok (fill_slot arg t).
Proof.
  unfold fill_slot. destruct (split_slot t) as [[a b]|] eqn:Hs;
    [intros _ | intros H; contradiction].
  destruct (split_slot_sound t a b Hs) as [-> [Ha Hb]].
  apply format_slot; assumption.
Qed.

Close Scope string_scope.

Lemma render_fill_slots (templates : list string) (classname : string) :
  Forall (fun t => split_slot t <> None) templates ->
  render templates classname = Ok (map (fill_slot classname) templates).
Proof.
  unfold render. induction 1 as [|t ts Ht _ IH]; [reflexivity|].
  simpl. rewrite (format_fill_slot t classname Ht). simpl.
  rewrite IH. reflexivity.
Qed.

Lemma notebook_templates_single_slot :
  Forall (fun t => split_slot t <> None) Notebook.emotion_templates.
Proof. repeat constructor; discriminate. Qed.

(** X2.  Each of the notebook's 24 templates has one slot between
    brace-free text, so for every class name, whatever its characters,
    rendering the templates returns 24 texts, text [t] being template [t]
    with the class name in the slot. *)
Theorem notebook_templates_render (classname : string) :
  render Notebook.emotion_templates classname =
    Ok (map (fill_slot classname) Notebook.emotion_templates) /\
  length (map (fill_slot classname) Notebook.emotion_templates) = 24%nat /\
  nth_error (map (fill_slot classname) Notebook.emotion_templates) 1 =
    Some ("a close-up of a " ++ classname ++ " face.")%string.
Proof.
  split; [apply render_fill_slots; exact notebook_templates_single_slot|].
  split; reflexivity.
Qed.

(** ** The builder: shape, failures, independence of the labels *)

Lemma Forall2_nth_error_l {A B : Type} (P : A -> B -> Prop)
      (l : list A) (l' : list B) (i : nat) (a : A) :
  Forall2 P l l' -> nth_error l i = Some a ->
  exists b, nth_error l' i = Some b /\ P a b.
Proof.
  intros H. revert i. induction H as [|a' b l l' Hab _ IH]; intros [|i] Hi;
    try discriminate Hi.
  - injection Hi as ->. exists b. auto.
  - apply IH. exact Hi.
Qed.

Section BuilderMore.

Variable encode_text : list string -> result tensor2.
Variable templates : list string.

(** What a returned matrix is made of. *)
Lemma builder_inv (classnames : list string) (W : tensor2) :
  zeroshot_classifier encode_text classnames templates = Ok W ->
  exists ws D,
    Forall2 (fun c w => class_embedding encode_text templates c = Ok w)
            classnames ws /\
    ws <> [] /\ Forall (fun w => length w = D) ws /\
    W = Tensor2 (length ws) (map (fun d => map (entry d) ws) (seq 0 D)).
Proof.
  unfold zeroshot_classifier. intros H. apply bind_ok in H.
  destruct H as [ws [Hloop Hstack]].
  apply zeroshot_loop_ok in Hloop. apply stack_dim1_inv in Hstack.
  destruct Hstack as [D [Hne [Hlen HW]]]. exists ws, D. auto.
Qed.

Lemma builder_column_inv (classnames : list string) (W : tensor2)
      (i : nat) (c : string) :
  zeroshot_classifier encode_text classnames templates = Ok W ->
  nth_error classnames i = Some c ->
  class_embedding encode_text templates c = Ok (column i W).
Proof.
  intros HW Hi. apply builder_inv in HW.
  destruct HW as [ws [D [Hws [_ [Hlen ->]]]]].
  destruct (Forall2_nth_error_l _ _ _ i c Hws Hi) as [w [Hw Hc]].
  rewrite (column_stacked ws D i w Hlen Hw). exact Hc.
Qed.

Lemma zeroshot_loop_raise (pre post : list string) (c : string) (e : exn) :
  Forall (fun c' => exists w, class_embedding encode_text templates c' = Ok w)
         pre ->
  class_embedding encode_text templates c = Raise e ->
  zeroshot_loop encode_text (pre ++ c :: post) templates = Raise e.
Proof.
  intros Hpre Hc. induction Hpre as [|c' pre [w Hw] _ IH]; simpl.
  - rewrite Hc. reflexivity.
  - rewrite Hw. simpl. rewrite IH. reflexivity.
Qed.

End BuilderMore.

(** X3.  A matrix returned by the builder is rectangular: the class list
    was not empty, the matrix has one column per class name, every row has
    that many entries and every column has as many entries as there are
    rows. *)
Theorem builder_shape
  (encode_text : list string -> result tensor2)
  (classnames templates : list string) (W : tensor2) :
  zeroshot_classifier encode_text classnames templates = Ok W ->
  classnames <> [] /\
  ncols W = length classnames /\
  Forall (fun row => length row = ncols W) (mrows W) /\
  forall i, length (column i W) = nrows W.
Proof.
  intros HW. apply builder_inv in HW.
  destruct HW as [ws [D [Hws [Hne [Hlen ->]]]]].
  pose proof (Forall2_length Hws) as Hl. cbn [ncols mrows].
  split; [|split; [|split]].
  - intros ->. destruct ws; [contradiction | discriminate Hl].
  - symmetry. exact Hl.
  - apply Forall_forall. intros row Hrow. apply in_map_iff in Hrow.
    destruct Hrow as [d [<- _]]. apply length_map.
  - intros i. unfold column, nrows. apply length_map.
Qed.

Lemma builder_shape_witness :
  ["happy"; "sad"]%string <> [] /\
  ncols Scenario.weights = length ["happy"; "sad"]%string /\
  Forall (fun row => length row = ncols Scenario.weights)
         (mrows Scenario.weights) /\
  forall i, length (column i Scenario.weights) = nrows Scenario.weights.
Proof.
  apply (builder_shape Scenario.encode_text
           ["happy"; "sad"]%string ["a {} face."]%string Scenario.weights).
  exact scenario_matrix.
Defined.

(** X4.  The builder stops at the first class name for which the encoder
    raises: when the loop body returns for the class names before [c], the
    templates render for [c] and the encoder raises on the rendered texts,
    the builder raises that exception, whatever class names follow. *)
Theorem builder_first_failure
  (encode_text : list string -> result tensor2)
  (templates pre post : list string) (c : string)
  (texts : list string) (e : exn) :
  Forall (fun c' => exists w, class_embedding encode_text templates c' = Ok w)
         pre ->
  render templates c = Ok texts ->
  encode_text texts = Raise e ->
  zeroshot_classifier encode_text (pre ++ c :: post) templates = Raise e.
Proof.
  intros Hpre Ht He. unfold zeroshot_classifier.
  rewrite (zeroshot_loop_raise encode_text templates pre post c e Hpre);
    [reflexivity|].
  unfold class_embedding. rewrite Ht. cbn [bind]. rewrite He. reflexivity.
Qed.

Lemma builder_first_failure_witness :
  zeroshot_classifier Probe.failing_encode_text
    (["happy"%string] ++ "sad"%string :: ["angry"%string])%list
    ["a {} face."]%string =
  Raise EncoderError.
Proof.
  apply (builder_first_failure Probe.failing_encode_text
           ["a {} face."]%string ["happy"]%string ["angry"]%string
           "sad"%string ["a sad face."]%string EncoderError).
  - constructor; [|constructor].
    exists (normalize (fin [1; 0])).
    apply (class_embedding_mean Probe.failing_encode_text
             ["a {} face."]%string "happy"%string
             ["a happy face."]%string (Tensor2 2 [fin [1; 0]]) [1; 0]
             eq_refl eq_refl (single_row_mean 1 0 sumsq_e1)).
  - reflexivity.
  - reflexivity.
Defined.

Lemma scenario_matrix_swapped :
  zeroshot_classifier Scenario.encode_text
    ["sad"; "happy"]%string ["a {} face."]%string =
  Ok (Tensor2 2 [fin [0; 1]; fin [1; 0]]).
Proof.
  unfold zeroshot_classifier, zeroshot_loop.
  rewrite (class_embedding_mean Scenario.encode_text
             ["a {} face."]%string "happy"%string
             ["a happy face."]%string (Tensor2 2 [fin [1; 0]]) [1; 0]
             eq_refl eq_refl (single_row_mean 1 0 sumsq_e1)).
  rewrite (class_embedding_mean Scenario.encode_text
             ["a {} face."]%string "sad"%string
             ["a sad face."]%string (Tensor2 2 [fin [0; 1]]) [0; 1]
             eq_refl eq_refl (single_row_mean 0 1 sumsq_e2)).
  rewrite !normalize_unit by (exact sumsq_e1 || exact sumsq_e2).
  reflexivity.
Qed.

(** X5.  The column of a class name depends on that name and the
    templates only, not on its position nor on the other class names: two
    runs of the builder with the same templates give a class name that
    occurs in both lists the same column.  In particular a reordering of
    the class names reorders the columns in the same way. *)
Theorem builder_column_by_label
  (encode_text : list string -> result tensor2)
  (templates classnames classnames' : list string) (W W' : tensor2)
  (i j : nat) (c : string) :
  zeroshot_classifier encode_text classnames templates = Ok W ->
  zeroshot_classifier encode_text classnames' templates = Ok W' ->
  nth_error classnames i = Some c ->
  nth_error classnames' j = Some c ->
  column i W = column j W'.
Proof.
  intros HW HW' Hi Hj.
  pose proof (builder_column_inv encode_text templates classnames W i c HW Hi)
    as H.
  pose proof (builder_column_inv encode_text templates classnames' W' j c
                HW' Hj) as H'.
  rewrite H in H'. injection H' as H'. exact H'.
Qed.

Lemma builder_column_by_label_witness :
  column 0 Scenario.weights = column 1 (Tensor2 2 [fin [0; 1]; fin [1; 0]]).
Proof.
  apply (builder_column_by_label Scenario.encode_text ["a {} face."]%string
           ["happy"; "sad"]%string ["sad"; "happy"]%string
           Scenario.weights (Tensor2 2 [fin [0; 1]; fin [1; 0]])
           0%nat 1%nat "happy"%string).
  - exact scenario_matrix.
  - exact scenario_matrix_swapped.
  - reflexivity.
  - reflexivity.
Defined.

(** ** Normalization removes the length of an embedding *)

Lemma sumsq_scale (c : R) (xs : list R) :
  sumsq (map (Rmult c) xs) = c * c * sumsq xs.
Proof.
  induction xs as [|x xs IH]; unfold sumsq, Rsum in *; simpl; [lra|].
  rewrite IH. lra.
Qed.

Lemma normalize_scale (c : R) (xs : list R) :
  0 < c -> normalize (fin (map (Rmult c) xs)) = normalize (fin xs).
Proof.
  intros Hc. destruct (Req_dec_T (sumsq xs) 0) as [Hz|Hnz].
  - rewrite (normalize_zero xs Hz).
    rewrite normalize_zero by (rewrite sumsq_scale, Hz; ring).
    rewrite length_map. reflexivity.
  - assert (Hs : sumsq (map (Rmult c) xs) <> 0).
    { rewrite sumsq_scale. pose proof (sumsq_nonneg xs).
      apply Rgt_not_eq. apply Rmult_lt_0_compat; [nra | lra]. }
    rewrite !normalize_fin by assumption. f_equal.
    unfold Runit. rewrite map_map. apply map_ext. intros x.
    rewrite sumsq_scale.
    rewrite sqrt_mult by (try apply sumsq_nonneg; nra).
    rewrite sqrt_square by lra.
    pose proof (sqrt_sumsq_nonzero xs Hnz). field. split; lra.
Qed.




(** ** When the prediction block returns and when it raises *)

Section PredictionMore.

Variable image_input : Type.
Variable encode_image : image_input -> result vec.
Context {tk : TopK}.

Lemma topk_ok (v : vec) (p : tnum) (i : nat) :
  topk v = Ok (p, i) ->
  v <> [] /\ nth_error v i = Some p /\ forall q, In q v -> tgt q p = false.
Proof.
  unfold topk. destruct v as [|x v'].
  - rewrite topk1_empty. discriminate.
  - intros H. split; [discriminate|].
    destruct (@topk1_largest tk (x :: v')) as [p' [i' [Htop Hrest]]];
      [discriminate|].
    rewrite Htop in H. injection H as <- <-. exact Hrest.
Qed.

Lemma length_softmax (v : vec) : length (softmax v) = length v.
Proof. unfold softmax. rewrite !length_map. reflexivity. Qed.

Lemma matmul_ok (x : vec) (W : tensor2) (logits : vec) :
  matmul x W = Ok logits -> length x = nrows W /\ length logits = ncols W.
Proof.
  unfold matmul. destruct (Nat.eqb_spec (length x) (nrows W)) as [E|_];
    [|discriminate].
  intros H. injection H as <-. rewrite length_map, length_seq. auto.
Qed.

(** What is known of a prediction that was returned, NaN entries
    included. *)
Lemma predict_inv (W : tensor2) (input : image_input) (pred : prediction) :
  webcam_predict encode_image W input = Ok pred ->
  exists x,
    encode_image input = Ok x /\ length x = nrows W /\
    (0 < ncols W)%nat /\
    length (probabilities pred) = ncols W /\
    (top_label pred < ncols W)%nat /\
    nth_error (probabilities pred) (top_label pred) = Some (top_prob pred).
Proof.
  unfold webcam_predict. intros H.
  apply bind_ok in H. destruct H as [x [Hx H]].
  apply bind_ok in H. destruct H as [logits [Hl H]].
  apply bind_ok in H. destruct H as [[p i] [Htop H]].
  injection H as <-. cbn [probabilities top_prob top_label fst snd].
  apply matmul_ok in Hl. destruct Hl as [Hlen Hlog].
  unfold scale in Hlen. rewrite length_map, length_normalize in Hlen.
  apply topk_ok in Htop. destruct Htop as [Hne [Hnth _]].
  assert (Hi : (i < length (softmax logits))%nat).
  { apply nth_error_Some. rewrite Hnth. discriminate. }
  rewrite length_softmax, Hlog in *.
  exists x. repeat split; try assumption. lia.
Qed.

Lemma predict_shape_mismatch (W : tensor2) (input : image_input) (x : vec) :
  encode_image input = Ok x -> length x <> nrows W ->
  webcam_predict encode_image W input = Raise RuntimeError.
Proof.
  intros Hx Hlen. unfold webcam_predict. rewrite Hx. cbn [bind].
  unfold matmul, scale. rewrite length_map, length_normalize.
  destruct (Nat.eqb_spec (length x) (nrows W)) as [E|_]; [contradiction|].
  reflexivity.
Qed.

Lemma predict_no_column (W : tensor2) (input : image_input) (x : vec) :
  encode_image input = Ok x -> ncols W = O ->
  webcam_predict encode_image W input = Raise RuntimeError.
Proof.
  intros Hx HL. unfold webcam_predict. rewrite Hx. cbn [bind].
  unfold matmul. rewrite HL.
  destruct (Nat.eqb _ _); [|reflexivity].
  cbn [bind seq map softmax]. unfold topk. rewrite topk1_empty. reflexivity.
Qed.

End PredictionMore.

(** X8.  A prediction that is returned is well formed, whatever the
    entries of the embedding and of the matrix, NaN included: the encoder
    answered with a vector of as many entries as the matrix has rows, the
    matrix has at least one column, the distribution has one entry per
    column, and the top label is a column index whose entry is the top
    probability. *)
Theorem predict_returns_valid_label
  (tk : TopK) (image_input : Type) (encode_image : image_input -> result vec)
  (W : tensor2) (input : image_input) (pred : prediction) :
  webcam_predict encode_image W input = Ok pred ->
  exists x,
    encode_image input = Ok x /\ length x = nrows W /\
    (0 < ncols W)%nat /\
    length (probabilities pred) = ncols W /\
    (top_label pred < ncols W)%nat /\
    nth_error (probabilities pred) (top_label pred) = Some (top_prob pred).
Proof. apply predict_inv. Qed.

Lemma predict_returns_valid_label_witness :
  exists pred x,
    Scenario.encode_image (1%nat, false) = Ok x /\
    length x = nrows Scenario.weights /\
    (0 < ncols Scenario.weights)%nat /\
    length (probabilities pred) = ncols Scenario.weights /\
    (top_label pred < ncols Scenario.weights)%nat /\
    nth_error (probabilities pred) (top_label pred) = Some (top_prob pred).
Proof.
  destruct (scenario_processed 0 false) as [pred [emo [Hpred _]]].
  exists pred.
  apply (predict_returns_valid_label topk_first Scenario.frame
           Scenario.encode_image Scenario.weights (1%nat, false) pred).
  exact Hpred.
Defined.

(** X9.  The prediction block raises in three cases: the encoder's own
    exception is passed on; an embedding whose size differs from the
    number of rows of the matrix makes the matrix product raise; and with
    a matrix without columns topk has nothing to select and raises. *)
Theorem predict_failures
  (tk : TopK) (image_input : Type) (encode_image : image_input -> result vec)
  (W : tensor2) (input : image_input) :
  (forall e, encode_image input = Raise e ->
             webcam_predict encode_image W input = Raise e) /\
  (forall x, encode_image input = Ok x -> length x <> nrows W ->
             webcam_predict encode_image W input = Raise RuntimeError) /\
  (forall x, encode_image input = Ok x -> ncols W = O ->
             webcam_predict encode_image W input = Raise RuntimeError).
Proof.
  split; [|split].
  - intros e He. unfold webcam_predict. rewrite He. reflexivity.
  - apply predict_shape_mismatch.
  - apply predict_no_column.
Qed.

Lemma predict_failures_witness :
  webcam_predict (tk := topk_first) Probe.wide_encode_image
    Scenario.weights (1%nat, false) = Raise RuntimeError /\
  webcam_predict (tk := topk_first) Scenario.encode_image
    Probe.no_labels (1%nat, false) = Raise RuntimeError /\
  webcam_predict (tk := topk_first) Scenario.encode_image
    Scenario.weights (0%nat, false) = Raise EncoderError.
Proof.
  split; [|split].
  - apply (proj1 (proj2 (predict_failures topk_first Scenario.frame
             Probe.wide_encode_image Scenario.weights (1%nat, false)))
             (fin [1; 0; 0])).
    + reflexivity.
    + simpl. discriminate.
  - apply (proj2 (proj2 (predict_failures topk_first Scenario.frame
             Scenario.encode_image Probe.no_labels (1%nat, false)))
             (fin [3; 0])); reflexivity.
  - apply (proj1 (predict_failures topk_first Scenario.frame
             Scenario.encode_image Scenario.weights (0%nat, false))).
    reflexivity.
Defined.

(** ** NaN spreads to the whole distribution *)

Lemma tadd_NaN_r (a : tnum) : tadd a NaN = NaN.
Proof. destruct a; reflexivity. Qed.

Lemma tmul_NaN_r (a : tnum) : tmul a NaN = NaN.
Proof. destruct a; reflexivity. Qed.

Lemma tdiv_NaN_r (a : tnum) : tdiv a NaN = NaN.
Proof. destruct a; reflexivity. Qed.

Lemma dot_NaN_r (x y : vec) :
  length x = length y -> In NaN y -> dot x y = NaN.
Proof.
  revert y. induction x as [|a x IH]; intros [|b y] Hlen Hin;
    try discriminate Hlen; [contradiction Hin|].
  rewrite dot_cons. destruct Hin as [->|Hin].
  - rewrite tmul_NaN_r. reflexivity.
  - rewrite (IH y) by (try exact Hin; simpl in Hlen; lia).
    apply tadd_NaN_r.
Qed.

Lemma dot_NaN_l (x y : vec) :
  length x = length y -> In NaN x -> dot x y = NaN.
Proof.
  revert y. induction x as [|a x IH]; intros [|b y] Hlen Hin;
    try discriminate Hlen; [contradiction Hin|].
  rewrite dot_cons. destruct Hin as [->|Hin].
  - reflexivity.
  - rewrite (IH y) by (try exact Hin; simpl in Hlen; lia).
    apply tadd_NaN_r.
Qed.

Lemma softmax_NaN (v : vec) : In NaN v -> Forall (eq NaN) (softmax v).
Proof.
  intros Hin. unfold softmax.
  assert (Hs : tsum (map texp v) = NaN).
  { apply tsum_NaN. apply in_map_iff. exists NaN. auto. }
  rewrite Hs. apply Forall_forall. intros q Hq.
  apply in_map_iff in Hq. destruct Hq as [a [<- _]].
  symmetry. apply tdiv_NaN_r.
Qed.

Section Poison.

Variable image_input : Type.
Variable encode_image : image_input -> result vec.
Context {tk : TopK}.

(** One NaN among the scores makes every probability NaN. *)
Lemma predict_NaN_score (W : tensor2) (input : image_input) (x logits : vec) :
  encode_image input = Ok x ->
  matmul (scale 100 (normalize x)) W = Ok logits ->
  In NaN logits ->
  exists pred,
    webcam_predict encode_image W input = Ok pred /\
    Forall (eq NaN) (probabilities pred) /\ top_prob pred = NaN.
Proof.
  intros Hx Hl Hin. unfold webcam_predict. rewrite Hx. cbn [bind].
  rewrite Hl. cbn [bind].
  pose proof (softmax_NaN logits Hin) as Hall.
  assert (Hne : softmax logits <> []).
  { intros E. apply (f_equal (@length tnum)) in E.
    rewrite length_softmax in E. destruct logits; [contradiction | discriminate]. }
  destruct (topk1_largest Hne) as [p [i [Htop [Hnth _]]]].
  unfold topk. rewrite Htop. cbn [bind fst snd].
  eexists. split; [reflexivity|]. cbn [probabilities top_prob].
  split; [exact Hall|].
  rewrite Forall_forall in Hall. symmetry. apply Hall.
  eapply nth_error_In. exact Hnth.
Qed.

End Poison.

(** X10.  A label column with a NaN entry spoils every frame: for any
    embedding of the right size the prediction is returned without an
    exception, every probability of its distribution is NaN, for every
    label, and the top probability is NaN. *)
Theorem nan_column_spoils_distribution
  (tk : TopK) (image_input : Type) (encode_image : image_input -> result vec)
  (W : tensor2) (input : image_input) (x : vec) (j : nat) :
  encode_image input = Ok x ->
  length x = nrows W ->
  (j < ncols W)%nat ->
  In NaN (column j W) ->
  exists pred,
    webcam_predict encode_image W input = Ok pred /\
    Forall (eq NaN) (probabilities pred) /\ top_prob pred = NaN.
Proof.
  intros Hx Hlen Hj Hin.
  apply (predict_NaN_score image_input encode_image W input x
           (map (fun j => dot (scale 100 (normalize x)) (column j W))
                (seq 0 (ncols W))) Hx).
  - unfold matmul, scale. rewrite length_map, length_normalize, Hlen.
    rewrite Nat.eqb_refl. reflexivity.
  - apply in_map_iff. exists j. split; [|apply in_seq; lia].
    apply dot_NaN_r; [|exact Hin].
    unfold scale, column. rewrite !length_map, length_normalize. exact Hlen.
Qed.

Lemma nan_column_spoils_distribution_witness :
  exists pred,
    webcam_predict (tk := topk_first) Scenario.encode_image
      Probe.nan_weights (1%nat, false) = Ok pred /\
    Forall (eq NaN) (probabilities pred) /\ top_prob pred = NaN.
Proof.
  apply (nan_column_spoils_distribution topk_first Scenario.frame
           Scenario.encode_image Probe.nan_weights (1%nat, false)
           (fin [3; 0]) 1%nat).
  - reflexivity.
  - reflexivity.
  - simpl. lia.
  - left. reflexivity.
Defined.

(** X11.  An image embedding that is the zero vector, or contains a NaN,
    has the same effect: its normalization is NaN where it matters and,
    the sizes fitting and the matrix having a column, the prediction is
    returned with every probability NaN. *)
Theorem degenerate_embedding_spoils_distribution
  (tk : TopK) (image_input : Type) (encode_image : image_input -> result vec)
  (W : tensor2) (input : image_input) (x : vec) :
  encode_image input = Ok x ->
  length x = nrows W ->
  (0 < nrows W)%nat ->
  (0 < ncols W)%nat ->
  (In NaN x \/ exists xs, x = fin xs /\ sumsq xs = 0) ->
  exists pred,
    webcam_predict encode_image W input = Ok pred /\
    Forall (eq NaN) (probabilities pred) /\ top_prob pred = NaN.
Proof.
  intros Hx Hlen HD HL Hdeg.
  assert (Hn : In NaN (scale 100 (normalize x))).
  { assert (Hnx : In NaN (normalize x)).
    { destruct Hdeg as [Hin | [xs [-> Hz]]].
      - unfold normalize. rewrite (norm_NaN x Hin).
        apply in_map_iff. exists NaN. split; [reflexivity | exact Hin].
      - rewrite (normalize_zero xs Hz).
        rewrite fin_length in Hlen.
        destruct (length xs); [lia | left; reflexivity]. }
    unfold scale. apply in_map_iff. exists NaN. split; [reflexivity | exact Hnx]. }
  apply (predict_NaN_score image_input encode_image W input x
           (map (fun j => dot (scale 100 (normalize x)) (column j W))
                (seq 0 (ncols W))) Hx).
  - unfold matmul, scale. rewrite length_map, length_normalize, Hlen.
    rewrite Nat.eqb_refl. reflexivity.
  - apply in_map_iff. exists 0%nat. split; [|apply in_seq; lia].
    apply dot_NaN_l; [|exact Hn].
    unfold scale, column. rewrite !length_map, length_normalize. exact Hlen.
Qed.

Lemma degenerate_embedding_spoils_distribution_witness :
  exists pred,
    webcam_predict (tk := topk_first) Probe.zero_encode_image
      Scenario.weights (1%nat, false) = Ok pred /\
    Forall (eq NaN) (probabilities pred) /\ top_prob pred = NaN.
Proof.
  apply (degenerate_embedding_spoils_distribution topk_first Scenario.frame
           Probe.zero_encode_image Scenario.weights (1%nat, false)
           (fin [0; 0])).
  - reflexivity.
  - reflexivity.
  - unfold nrows. simpl. lia.
  - simpl. lia.
  - right. exists [0; 0]. split; [reflexivity|].
    unfold sumsq, Rsum. simpl. lra.
Defined.

(** ** Bounds on the probabilities and the scores *)





Lemma sumsq_Runit (xs : list R) : sumsq xs <> 0 -> sumsq (Runit xs) = 1.
Proof.
  intros H. unfold Runit. rewrite sumsq_scaled.
  rewrite sqrt_sqrt by apply sumsq_nonneg. field. exact H.
Qed.





(** ** The q key *)

(** X15.  The loops leave on a key code exactly when its low byte is 113,
    the code of q: flags in higher bits do not matter, and the -1 that
    [cv2.waitKey] returns when no key is pressed never ends a loop. *)
Theorem is_quit_low_byte :
  (forall key, is_quit key = true <-> (key mod 256 = 113)%Z) /\
  is_quit (fst (wait_key [])) = false.
Proof.
  split; [|reflexivity].
  intros key. unfold is_quit.
  change 255%Z with (Z.ones 8). rewrite Z.land_ones by lia.
  change (2 ^ 8)%Z with 256%Z. apply Z.eqb_eq.
Qed.

(** ** What a run reads, encodes and shows *)

Section LoopMore.

Variables frame image_input : Type.
Variable to_input : frame -> image_input.
Variable encode_image : image_input -> result vec.
Context {tk : TopK}.
Variable emotion_classes : list string.
Variable zeroshot_weights : tensor2.

Local Notation "'video_frames''" :=
  (video_frames to_input encode_image emotion_classes zeroshot_weights).

(** Whatever the outcome, the frames are encoded in order, each at most
    once and none skipped, and every encoded frame is shown, except the
    last one when the run ends with an exception. *)
Lemma video_frames_prefix (frames : list frame) (keys : list Z) :
  exists n m,
    (n <= length frames)%nat /\
    encoder_inputs (fst (video_frames' frames keys)) =
      map to_input (firstn n frames) /\
    shown_frames (fst (video_frames' frames keys)) = firstn m frames /\
    match snd (video_frames' frames keys) with
    | Uncaught _ => n = S m
    | _ => n = m
    end.
Proof.
  revert keys. induction frames as [|f frames IH]; intros keys.
  - exists 0%nat, 0%nat. simpl. auto.
  - cbn [video_frames].
    destruct (video_predict encode_image zeroshot_weights (to_input f))
      as [pred|e].
    2:{ exists 1%nat, 0%nat. simpl. repeat split; try reflexivity; lia. }
    destruct (nth_error emotion_classes (top_label pred)) as [emo|].
    2:{ exists 1%nat, 0%nat. simpl. repeat split; try reflexivity; lia. }
    destruct (wait_key keys) as [key keys'].
    destruct (is_quit key).
    { exists 1%nat, 1%nat. simpl. repeat split; try reflexivity; lia. }
    destruct (IH keys') as [n [m [Hn [Hin [Hsh Hout]]]]].
    destruct (video_frames' frames keys') as [tr out].
    exists (S n), (S m). simpl in *.
    repeat split; [lia | f_equal; exact Hin | f_equal; exact Hsh |].
    destruct out; lia.
Qed.

(** The iterations never release the capture. *)
Lemma video_frames_no_release (frames : list frame) (keys : list Z) :
  releases (fst (video_frames' frames keys)) = 0%nat.
Proof.
  revert keys. induction frames as [|f frames IH]; intros keys;
    [reflexivity|].
  cbn [video_frames].
  destruct (video_predict encode_image zeroshot_weights (to_input f))
    as [pred|e]; [|reflexivity].
  destruct (nth_error emotion_classes (top_label pred)); [|reflexivity].
  destruct (wait_key keys) as [key keys'].
  destruct (is_quit key); [reflexivity|].
  specialize (IH keys').
  destruct (video_frames' frames keys') as [tr out]. exact IH.
Qed.

(** With as many class names as the matrix has columns, the lookup of the
    predicted emotion cannot fail: an exception that ends the iterations
    was raised by the prediction block on one of the frames. *)
Lemma video_frames_uncaught (frames : list frame) (keys : list Z) (e : exn) :
  length emotion_classes = ncols zeroshot_weights ->
  snd (video_frames' frames keys) = Uncaught e ->
  exists f, In f frames /\
            video_predict encode_image zeroshot_weights (to_input f) = Raise e.
Proof.
  intros Hlen. revert keys. induction frames as [|f frames IH]; intros keys.
  - discriminate.
  - cbn [video_frames].
    destruct (video_predict encode_image zeroshot_weights (to_input f))
      as [pred|e'] eqn:Hp.
    2:{ intros H. injection H as ->. exists f. split; [left; reflexivity | exact Hp]. }
    destruct (predict_inv image_input encode_image zeroshot_weights
                (to_input f) pred Hp) as [x [_ [_ [_ [_ [Hlab _]]]]]].
    destruct (nth_error emotion_classes (top_label pred)) as [emo|] eqn:He.
    2:{ apply nth_error_None in He. lia. }
    destruct (wait_key keys) as [key keys'].
    destruct (is_quit key); [discriminate|].
    specialize (IH keys').
    destruct (video_frames' frames keys') as [tr out]. simpl.
    intros Hout. destruct (IH Hout) as [f' [Hin Hf']].
    exists f'. split; [right; exact Hin | exact Hf'].
Qed.

(** The q key read after frame number [length before] ends the loop: that
    frame is still shown, none of the later ones is read. *)
Lemma video_frames_quit (before after : list frame) (f : frame)
      (ks ks' : list Z) (k : Z) :
  length ks = length before ->
  Forall (fun f' => processed encode_image emotion_classes zeroshot_weights
                      (to_input f')) (before ++ [f]) ->
  Forall (fun k' => is_quit k' = false) ks ->
  is_quit k = true ->
  snd (video_frames' (before ++ f :: after) (ks ++ k :: ks')) = QuitKey /\
  encoder_inputs (fst (video_frames' (before ++ f :: after) (ks ++ k :: ks')))
    = map to_input (before ++ [f]) /\
  shown_frames (fst (video_frames' (before ++ f :: after) (ks ++ k :: ks')))
    = (before ++ [f])%list.
Proof.
  revert ks. induction before as [|b before IH]; intros ks Hlen Hall Hks Hk.
  - destruct ks; [|discriminate Hlen]. cbn [app video_frames].
    inversion Hall as [|? ? [pred [emo [Hp He]]] _]; subst.
    change (video_predict encode_image zeroshot_weights (to_input f))
      with (webcam_predict encode_image zeroshot_weights (to_input f)).
    rewrite Hp, He. cbn [wait_key]. rewrite Hk. simpl. auto.
  - destruct ks as [|k0 ks]; [discriminate Hlen|].
    cbn [app video_frames].
    inversion Hall as [|? ? [pred [emo [Hp He]]] Hall']; subst.
    inversion Hks as [|? ? Hk0 Hks']; subst.
    change (video_predict encode_image zeroshot_weights (to_input b))
      with (webcam_predict encode_image zeroshot_weights (to_input b)).
    rewrite Hp, He. cbn [wait_key]. rewrite Hk0.
    destruct (IH ks ltac:(simpl in Hlen; lia) Hall' Hks' Hk) as [Ho [Hi Hs]].
    destruct (video_frames' (before ++ f :: after) (ks ++ k :: ks'))
      as [tr out].
    simpl in *. repeat split; [exact Ho | f_equal; exact Hi | f_equal; exact Hs].
Qed.

End LoopMore.

Lemma encoder_inputs_release {frame image_input : Type}
      (tr : trace frame image_input) :
  encoder_inputs (tr ++ [Release]) = encoder_inputs tr.
Proof.
  induction tr as [|ev tr IH]; [reflexivity|].
  destruct ev; simpl; rewrite IH; reflexivity.
Qed.

Lemma shown_frames_release {frame image_input : Type}
      (tr : trace frame image_input) :
  shown_frames (tr ++ [Release]) = shown_frames tr.
Proof.
  induction tr as [|ev tr IH]; [reflexivity|].
  destruct ev; simpl; rewrite IH; reflexivity.
Qed.

(** X16.  Whatever the frames, the keys and the outcome, a run of either
    loop encodes the frames in the order of delivery, each at most once and
    none skipped, and shows every frame it encoded, except that the frame
    on which an exception was raised is not shown.  The webcam loop
    encodes and shows the flipped frames. *)
Theorem loops_encode_in_order
  (tk : TopK) (frame image_input : Type)
  (flip : frame -> frame) (to_input : frame -> image_input)
  (encode_image : image_input -> result vec)
  (emotion_classes : list string) (zeroshot_weights : tensor2)
  (frames : list frame) (keys : list Z) :
  (exists n m,
     (n <= length frames)%nat /\
     encoder_inputs
       (fst (video_loop to_input encode_image emotion_classes
               zeroshot_weights (Capture true frames) keys))
     = map to_input (firstn n frames) /\
     shown_frames
       (fst (video_loop to_input encode_image emotion_classes
               zeroshot_weights (Capture true frames) keys))
     = firstn m frames /\
     match snd (video_loop to_input encode_image emotion_classes
                  zeroshot_weights (Capture true frames) keys) with
     | Uncaught _ => n = S m
     | _ => n = m
     end) /\
  (exists n m,
     (n <= length frames)%nat /\
     encoder_inputs
       (fst (webcam_loop flip to_input encode_image emotion_classes
               zeroshot_weights (Capture true frames) keys))
     = map (fun f => to_input (flip f)) (firstn n frames) /\
     shown_frames
       (fst (webcam_loop flip to_input encode_image emotion_classes
               zeroshot_weights (Capture true frames) keys))
     = map flip (firstn m frames) /\
     match snd (webcam_loop flip to_input encode_image emotion_classes
                  zeroshot_weights (Capture true frames) keys) with
     | Uncaught _ => n = S m
     | _ => n = m
     end).
Proof.
  split.
  - destruct (video_frames_prefix frame image_input to_input encode_image
                emotion_classes zeroshot_weights frames keys)
      as [n [m [Hn [Hin [Hsh Hout]]]]].
    exists n, m. unfold video_loop. cbn [opened pending].
    destruct (video_frames to_input encode_image emotion_classes
                zeroshot_weights frames keys) as [tr out].
    cbn [fst snd] in *.
    rewrite encoder_inputs_release, shown_frames_release. auto.
  - destruct (video_frames_prefix frame image_input to_input encode_image
                emotion_classes zeroshot_weights (map flip frames) keys)
      as [n [m [Hn [Hin [Hsh Hout]]]]].
    exists n, m. unfold webcam_loop. cbn [opened pending].
    rewrite webcam_frames_flip.
    destruct (video_frames to_input encode_image emotion_classes
                zeroshot_weights (map flip frames) keys) as [tr out].
    cbn [fst snd] in *.
    rewrite encoder_inputs_release, shown_frames_release.
    rewrite length_map in Hn. rewrite firstn_map, map_map in Hin.
    rewrite firstn_map in Hsh. auto.
Qed.

(** X17.  Every run of either loop releases the capture exactly once, as
    its last action: after the end of the stream, after the q key, after
    an exception, and when the capture could not be opened.  A video file
    that could not be opened is not read at all. *)
Theorem capture_released_once
  (tk : TopK) (frame image_input : Type)
  (flip : frame -> frame) (to_input : frame -> image_input)
  (encode_image : image_input -> result vec)
  (emotion_classes : list string) (zeroshot_weights : tensor2)
  (cap : capture frame) (keys : list Z) :
  (exists tr,
     fst (webcam_loop flip to_input encode_image emotion_classes
            zeroshot_weights cap keys) = (tr ++ [Release])%list /\
     releases tr = 0%nat) /\
  (exists tr,
     fst (video_loop to_input encode_image emotion_classes
            zeroshot_weights cap keys) = (tr ++ [Release])%list /\
     releases tr = 0%nat) /\
  (opened cap = false ->
   video_loop to_input encode_image emotion_classes
     zeroshot_weights cap keys = ([Release], NotOpened)).
Proof.
  split; [|split].
  - unfold webcam_loop. destruct (opened cap).
    + rewrite webcam_frames_flip.
      pose proof (video_frames_no_release frame image_input to_input
                    encode_image emotion_classes zeroshot_weights
                    (map flip (pending cap)) keys) as H.
      destruct (video_frames to_input encode_image emotion_classes
                  zeroshot_weights (map flip (pending cap)) keys) as [tr out].
      exists tr. auto.
    + exists []. auto.
  - unfold video_loop. destruct (opened cap).
    + pose proof (video_frames_no_release frame image_input to_input
                    encode_image emotion_classes zeroshot_weights
                    (pending cap) keys) as H.
      destruct (video_frames to_input encode_image emotion_classes
                  zeroshot_weights (pending cap) keys) as [tr out].
      exists tr. auto.
    + exists []. auto.
  - intros Hop. unfold video_loop. rewrite Hop. reflexivity.
Qed.

Lemma capture_released_once_witness :
  video_loop (tk := topk_first) Scenario.to_input Scenario.encode_image
    Scenario.emotion_classes Scenario.weights
    (Capture false [(1%nat, false)]) [] = ([Release], NotOpened).
Proof.
  apply (proj2 (proj2
    (capture_released_once topk_first Scenario.frame Scenario.frame
       Scenario.flip Scenario.to_input Scenario.encode_image
       Scenario.emotion_classes Scenario.weights
       (Capture false [(1%nat, false)]) []))).
  reflexivity.
Defined.

(** X18.  When there are as many class names as the label matrix has
    columns, looking up the predicted emotion never fails: if a run ends
    with an exception, the prediction block raised it on one of the
    frames of the capture. *)
Theorem emotion_lookup_never_fails
  (tk : TopK) (frame image_input : Type)
  (flip : frame -> frame) (to_input : frame -> image_input)
  (encode_image : image_input -> result vec)
  (emotion_classes : list string) (zeroshot_weights : tensor2)
  (cap : capture frame) (keys : list Z) (e : exn) :
  length emotion_classes = ncols zeroshot_weights ->
  (snd (video_loop to_input encode_image emotion_classes
          zeroshot_weights cap keys) = Uncaught e ->
   exists f, In f (pending cap) /\
     video_predict encode_image zeroshot_weights (to_input f) = Raise e) /\
  (snd (webcam_loop flip to_input encode_image emotion_classes
          zeroshot_weights cap keys) = Uncaught e ->
   exists f, In f (pending cap) /\
     webcam_predict encode_image zeroshot_weights (to_input (flip f))
       = Raise e).
Proof.
  intros Hlen. split.
  - unfold video_loop. destruct (opened cap); [|discriminate].
    pose proof (video_frames_uncaught frame image_input to_input
                  encode_image emotion_classes zeroshot_weights
                  (pending cap) keys e Hlen) as H.
    destruct (video_frames to_input encode_image emotion_classes
                zeroshot_weights (pending cap) keys) as [tr out].
    exact H.
  - unfold webcam_loop. destruct (opened cap); [|discriminate].
    rewrite webcam_frames_flip.
    pose proof (video_frames_uncaught frame image_input to_input
                  encode_image emotion_classes zeroshot_weights
                  (map flip (pending cap)) keys e Hlen) as H.
    destruct (video_frames to_input encode_image emotion_classes
                zeroshot_weights (map flip (pending cap)) keys) as [tr out].
    cbn [snd] in *. intros Hout. destruct (H Hout) as [f' [Hin Hf']].
    apply in_map_iff in Hin. destruct Hin as [f [<- Hin]].
    exists f. split; [exact Hin | exact Hf'].
Qed.

Lemma emotion_lookup_never_fails_witness :
  exists f, In f [(0%nat, false); (1%nat, false)] /\
    video_predict (tk := topk_first) Scenario.encode_image Scenario.weights
      (Scenario.to_input f) = Raise EncoderError.
Proof.
  apply (proj1
    (emotion_lookup_never_fails topk_first Scenario.frame Scenario.frame
       Scenario.flip Scenario.to_input Scenario.encode_image
       Scenario.emotion_classes Scenario.weights
       (Capture true [(0%nat, false); (1%nat, false)]) [] EncoderError
       eq_refl)).
  reflexivity.
Defined.

(** X19.  The q key ends a run after the frame on whose display it was
    read: with the frames up to that one processed and no q key before,
    that frame is still encoded and shown, no later frame is read, and the
    run ends as a quit, not as the end of the stream. *)
Theorem quit_key_ends_run
  (tk : TopK) (frame image_input : Type)
  (flip : frame -> frame) (to_input : frame -> image_input)
  (encode_image : image_input -> result vec)
  (emotion_classes : list string) (zeroshot_weights : tensor2)
  (before after : list frame) (f : frame) (ks ks' : list Z) (k : Z) :
  length ks = length before ->
  Forall (fun k' => is_quit k' = false) ks ->
  is_quit k = true ->
  (Forall (fun f' => processed encode_image emotion_classes zeroshot_weights
                       (to_input f')) (before ++ [f]) ->
   snd (video_loop to_input encode_image emotion_classes zeroshot_weights
          (Capture true (before ++ f :: after)) (ks ++ k :: ks')) = QuitKey /\
   shown_frames
     (fst (video_loop to_input encode_image emotion_classes zeroshot_weights
             (Capture true (before ++ f :: after)) (ks ++ k :: ks')))
   = (before ++ [f])%list) /\
  (Forall (fun f' => processed encode_image emotion_classes zeroshot_weights
                       (to_input (flip f'))) (before ++ [f]) ->
   snd (webcam_loop flip to_input encode_image emotion_classes
          zeroshot_weights
          (Capture true (before ++ f :: after)) (ks ++ k :: ks')) = QuitKey /\
   shown_frames
     (fst (webcam_loop flip to_input encode_image emotion_classes
             zeroshot_weights
             (Capture true (before ++ f :: after)) (ks ++ k :: ks')))
   = map flip (before ++ [f])).
Proof.
  intros Hlen Hks Hk. split; intros Hall.
  - destruct (video_frames_quit frame image_input to_input encode_image
                emotion_classes zeroshot_weights before after f ks ks' k
                Hlen Hall Hks Hk) as [Ho [_ Hs]].
    unfold video_loop. cbn [opened pending].
    destruct (video_frames to_input encode_image emotion_classes
                zeroshot_weights (before ++ f :: after) (ks ++ k :: ks'))
      as [tr out].
    cbn [fst snd] in *. rewrite shown_frames_release. auto.
  - destruct (video_frames_quit frame image_input to_input encode_image
                emotion_classes zeroshot_weights
                (map flip before) (map flip after) (flip f) ks ks' k)
      as [Ho [_ Hs]]; try assumption.
    { rewrite length_map. exact Hlen. }
    { change [flip f] with (map flip [f]). rewrite <- map_app.
      apply Forall_map. exact Hall. }
    unfold webcam_loop. cbn [opened pending].
    rewrite webcam_frames_flip, map_app. cbn [map].
    destruct (video_frames to_input encode_image emotion_classes
                zeroshot_weights (map flip before ++ flip f :: map flip after)
                (ks ++ k :: ks')) as [tr out].
    cbn [fst snd] in *. rewrite shown_frames_release.
    rewrite map_app. auto.
Qed.

Lemma quit_key_ends_run_witness :
  snd (video_loop (tk := topk_first) Scenario.to_input Scenario.encode_image
         Scenario.emotion_classes Scenario.weights
         (Capture true ([] ++ (1%nat, false) :: [(2%nat, false)]))
         ([] ++ 113%Z :: [])) = QuitKey /\
  shown_frames
    (fst (video_loop (tk := topk_first) Scenario.to_input
            Scenario.encode_image Scenario.emotion_classes Scenario.weights
            (Capture true ([] ++ (1%nat, false) :: [(2%nat, false)]))
            ([] ++ 113%Z :: [])))
  = ([] ++ [(1%nat, false)])%list.
Proof.
  apply (proj1
    (quit_key_ends_run topk_first Scenario.frame Scenario.frame
       Scenario.flip Scenario.to_input Scenario.encode_image
       Scenario.emotion_classes Scenario.weights
       [] [(2%nat, false)] (1%nat, false) [] [] 113%Z
       eq_refl (Forall_nil _) eq_refl)).
  constructor; [|constructor]. apply scenario_processed.
Defined.

(** ** The builder on the notebook's configuration *)

Lemma builder_succeeds
  (encode_text : list string -> result tensor2)
  (classnames templates : list string) (D : nat) :
  classnames <> [] ->
  Forall (fun c => exists w, class_embedding encode_text templates c = Ok w /\
                             length w = D) classnames ->
  exists W,
    zeroshot_classifier encode_text classnames templates = Ok W /\
    ncols W = length classnames /\ nrows W = D.
Proof.
  intros Hne Hall.
  assert (Hloop : exists ws,
    Forall2 (fun c w => class_embedding encode_text templates c = Ok w)
            classnames ws /\ Forall (fun w => length w = D) ws).
  { clear Hne. induction Hall as [|c cs [w [Hw Hlen]] _ [ws [Hws Hlens]]].
    - exists []. split; constructor.
    - exists (w :: ws). split; constructor; assumption. }
  destruct Hloop as [ws [Hws Hlens]].
  pose proof (Forall2_length Hws) as Hl.
  exists (Tensor2 (length ws) (map (fun d => map (entry d) ws) (seq 0 D))).
  split; [|split].
  - unfold zeroshot_classifier. apply zeroshot_loop_ok in Hws.
    rewrite Hws. cbn [bind]. apply stack_dim1_ok; [|exact Hlens].
    intros ->. destruct classnames; [contradiction | discriminate Hl].
  - symmetry. exact Hl.
  - unfold nrows. cbn [mrows]. rewrite length_map, length_seq. reflexivity.
Qed.

(** X20.  With the notebook's eight class names and 24 templates the
    builder can fail through the encoder only: whenever the encoder
    answers every list of texts with a tensor of D columns, the builder
    returns a matrix with D rows and eight columns, one per class name. *)
Theorem notebook_builder_returns
  (encode_text : list string -> result tensor2) (D : nat) :
  (forall texts, exists E, encode_text texts = Ok E /\ ncols E = D) ->
  exists W,
    zeroshot_classifier encode_text
      Notebook.emotion_classes Notebook.emotion_templates = Ok W /\
    ncols W = 8%nat /\ nrows W = D /\
    length Notebook.emotion_classes = ncols W.
Proof.
  intros Henc.
  destruct (builder_succeeds encode_text Notebook.emotion_classes
              Notebook.emotion_templates D) as [W [HW [HL HD]]].
  - discriminate.
  - apply Forall_forall. intros c _.
    destruct (Henc (map (fill_slot c) Notebook.emotion_templates))
      as [E [HE HDE]].
    exists (normalize (mean_dim0 (div_row_norms E))). split.
    + unfold class_embedding.
      rewrite (render_fill_slots Notebook.emotion_templates c
                 notebook_templates_single_slot).
      cbn [bind]. rewrite HE. reflexivity.
    + rewrite length_normalize, length_mean_dim0. exact HDE.
  - exists W. split; [exact HW|]. split; [exact HL|]. split; [exact HD|].
    symmetry. exact HL.
Qed.

Lemma notebook_builder_returns_witness :
  exists W,
    zeroshot_classifier Scenario.encode_text
      Notebook.emotion_classes Notebook.emotion_templates = Ok W /\
    ncols W = 8%nat /\ nrows W = 2%nat /\
    length Notebook.emotion_classes = ncols W.
Proof.
  apply (notebook_builder_returns Scenario.encode_text 2).
  intros texts. exists (Tensor2 2 (map Scenario.text_embedding texts)).
  split; reflexivity.
Defined.

(** ** Unbalanced braces *)

Open Scope string_scope.

Lemma format_field_unclosed (t name : string) (num : numbering) (arg : string) :
  no_braces t = true -> format_field t name num arg = Raise ValueError.
Proof.
  revert name. induction t as [|c t IH]; intros name Ht; [reflexivity|].
  apply no_braces_cons in Ht. destruct Ht as [_ [Hr Ht]].
  cbn [format_field]. rewrite Hr. apply IH. exact Ht.
Qed.

Lemma format_text_lone_brace (b : string) (num : numbering) (arg : string) :
  no_braces b = true ->
  format_text ("}" ++ b) num arg = Raise ValueError /\
  format_text ("{" ++ b) num arg = Raise ValueError.
Proof.
  intros Hb. destruct b as [|c b]; [split; reflexivity|].
  pose proof (no_braces_cons c b Hb) as [Hl [Hr _]].
  split.
  - cbn [append format_text]. cbn. rewrite Hr. reflexivity.
  - cbn [append format_text]. cbn -[format_field]. rewrite Hl.
    apply format_field_unclosed. exact Hb.
Qed.

(** X21.  A template in which one brace stands alone, the rest being
    brace-free, cannot be rendered: formatting raises ValueError, and so
    does the builder on a non-empty class list when the templates before
    it render. *)
Theorem lone_brace_template_fails
  (encode_text : list string -> result tensor2)
  (a b : string) (pre post : list string) (c : string) (cs : list string) :
  no_braces a = true -> no_braces b = true ->
  (forall t', In t' pre -> exists s, format t' c = Ok s) ->
  format (a ++ "}" ++ b) c = Raise ValueError /\
  format (a ++ "{" ++ b) c = Raise ValueError /\
  zeroshot_classifier encode_text (c :: cs) (pre ++ (a ++ "{" ++ b)%string :: post)%list
    = Raise ValueError /\
  zeroshot_classifier encode_text (c :: cs) (pre ++ (a ++ "}" ++ b)%string :: post)%list
    = Raise ValueError.
Proof.
  intros Ha Hb Hpre.
  destruct (format_text_lone_brace b Unset c Hb) as [Hr Hl].
  assert (H1 : format (a ++ "}" ++ b) c = Raise ValueError).
  { unfold format. rewrite format_text_literal by exact Ha.
    rewrite Hr. reflexivity. }
  assert (H2 : format (a ++ "{" ++ b) c = Raise ValueError).
  { unfold format. rewrite format_text_literal by exact Ha.
    rewrite Hl. reflexivity. }
  split; [exact H1|]. split; [exact H2|].
  split.
  - unfold zeroshot_classifier. cbn [zeroshot_loop]. unfold class_embedding.
    rewrite (render_raise pre post _ c ValueError Hpre H2). reflexivity.
  - unfold zeroshot_classifier. cbn [zeroshot_loop]. unfold class_embedding.
    rewrite (render_raise pre post _ c ValueError Hpre H1). reflexivity.
Qed.

Lemma lone_brace_template_fails_witness :
  format ("a " ++ "}" ++ " face.") "happy" = Raise ValueError /\
  format ("a " ++ "{" ++ " face.") "happy" = Raise ValueError /\
  zeroshot_classifier Scenario.encode_text ("happy" :: ["sad"])
    (["a {} face."] ++ ("a " ++ "{" ++ " face.")%string :: [])%list
    = Raise ValueError /\
  zeroshot_classifier Scenario.encode_text ("happy" :: ["sad"])
    (["a {} face."] ++ ("a " ++ "}" ++ " face.")%string :: [])%list
    = Raise ValueError.
Proof.
  apply (lone_brace_template_fails Scenario.encode_text
           "a " " face." ["a {} face."] [] "happy" ["sad"]).
  - reflexivity.
  - reflexivity.
  - intros t' [<-|[]]. exists "a happy face.". reflexivity.
Defined.

Close Scope string_scope.

(** * The embeddings in closed form *)

Lemma well_scaled_nonzero (xs : list R) : well_scaled xs -> sumsq xs <> 0.
Proof.
  unfold well_scaled. intros [H _].
  assert (0 < / 1048576) by (apply Rinv_0_lt_compat; lra). lra.
Qed.

Lemma Forall_well_scaled_nonzero (rs : list (list R)) :
  Forall well_scaled rs -> Forall (fun r => sumsq r <> 0) rs.
Proof. apply Forall_impl. exact well_scaled_nonzero. Qed.


Lemma Runit_unit (xs : list R) : sumsq xs = 1 -> Runit xs = xs.
Proof.
  intros H. unfold Runit. rewrite H, sqrt_1. rewrite <- (map_id xs) at 2.
  apply map_ext. intros x. field.
Qed.




Lemma one_row_mean (x y : R) :
  sumsq [x; y] = 1 -> Rmean 2 (map Runit [[x; y]]) = [(x + 0) / INR 1; (y + 0) / INR 1].
Proof.
  intros H. cbn [map]. rewrite (Runit_unit [x; y] H). reflexivity.
Qed.

Lemma well_scaled_one_row_mean (x y : R) :
  sumsq [x; y] = 1 -> well_scaled (Rmean 2 (map Runit [[x; y]])).
Proof.
  intros H. rewrite (one_row_mean x y H). unfold well_scaled.
  replace (sumsq [(x + 0) / INR 1; (y + 0) / INR 1]) with (sumsq [x; y]).
  - rewrite H. lra.
  - unfold sumsq, Rsum. simpl. field.
Qed.

Lemma well_scaled_unit (xs : list R) : sumsq xs = 1 -> well_scaled xs.
Proof. intros H. unfold well_scaled. rewrite H. lra. Qed.


(** C3, with the preconditions it needs, label by label.  The column of a
    class name has norm 1 when the raw embeddings of that class name are
    well-scaled real vectors and the mean of their normalizations is well
    scaled, whatever the other class names give.  In the prediction block
    the image embedding that enters the scores has norm 1 when the raw
    embedding is a well-scaled real vector. *)
Theorem unit_norm_embeddings
  (encode_text : list string -> result tensor2)
  (classnames templates : list string) (W : tensor2)
  (i : nat) (c : string) (texts : list string) (D : nat) (rs : list (list R))
  (tk : TopK) (image_input : Type) (encode_image : image_input -> result vec)
  (input : image_input) (xs : list R) (W' : tensor2) :
  zeroshot_classifier encode_text classnames templates = Ok W ->
  nth_error classnames i = Some c ->
  render templates c = Ok texts ->
  encode_text texts = Ok (Tensor2 D (map fin rs)) ->
  rs <> [] ->
  Forall (fun r => length r = D) rs ->
  Forall well_scaled rs ->
  well_scaled (Rmean D (map Runit rs)) ->
  encode_image input = Ok (fin xs) ->
  well_scaled xs ->
  (exists u, column i W = fin u /\ sumsq u = 1 /\ norm (column i W) = Fin 1) /\
  (exists u, normalize (fin xs) = fin u /\ sumsq u = 1 /\
             norm (normalize (fin xs)) = Fin 1) /\
  webcam_predict encode_image W' input =
    score_features W' (normalize (fin xs)) /\
  video_predict encode_image W' input =
    score_features W' (normalize (fin xs)).
Proof.
  intros HW Hi Ht HE Hrs Hlen Hrows Hmean Henc Hxs.
  pose proof (well_scaled_nonzero _ Hmean) as Hm.
  pose proof (well_scaled_nonzero _ Hxs) as Hx.
  split; [|split; [|split]].
  - pose proof (builder_column_inv encode_text templates classnames W i c
                  HW Hi) as Hcol.
    rewrite (class_embedding_real encode_text templates c texts D rs
               Ht HE Hrs Hlen (Forall_well_scaled_nonzero rs Hrows) Hm)
      in Hcol.
    injection Hcol as Hcol. rewrite <- Hcol.
    exists (Runit (Rmean D (map Runit rs))).
    split; [reflexivity|]. split; [apply sumsq_Runit; exact Hm|].
    rewrite <- normalize_fin by exact Hm.
    apply norm_normalize_fin. exact Hm.
  - exists (Runit xs). split; [apply normalize_fin; exact Hx|].
    split; [apply sumsq_Runit; exact Hx|].
    apply norm_normalize_fin. exact Hx.
  - unfold webcam_predict. rewrite Henc. reflexivity.
  - unfold video_predict. rewrite Henc. reflexivity.
Qed.

Lemma unit_norm_embeddings_witness :
  (exists u, column 0 Scenario.weights = fin u /\ sumsq u = 1 /\
             norm (column 0 Scenario.weights) = Fin 1) /\
  (exists u, normalize (fin [3; 0]) = fin u /\ sumsq u = 1 /\
             norm (normalize (fin [3; 0])) = Fin 1) /\
  webcam_predict (tk := topk_first) Scenario.encode_image
    Scenario.weights (1%nat, false) =
    score_features (tk := topk_first) Scenario.weights (normalize (fin [3; 0])) /\
  video_predict (tk := topk_first) Scenario.encode_image
    Scenario.weights (1%nat, false) =
    score_features (tk := topk_first) Scenario.weights (normalize (fin [3; 0])).
Proof.
  apply (unit_norm_embeddings Scenario.encode_text
           ["happy"; "sad"]%string ["a {} face."]%string Scenario.weights
           0%nat "happy"%string ["a happy face."]%string 2%nat [[1; 0]]
           topk_first Scenario.frame Scenario.encode_image
           (1%nat, false) [3; 0] Scenario.weights).
  - exact scenario_matrix.
  - reflexivity.
  - reflexivity.
  - reflexivity.
  - discriminate.
  - repeat constructor.
  - constructor; [|constructor]. apply well_scaled_unit. exact sumsq_e1.
  - apply well_scaled_one_row_mean. exact sumsq_e1.
  - reflexivity.
  - unfold well_scaled, sumsq, Rsum. simpl. lra.
Defined.

(** ** The last normalization in binary32 *)


(** The normalization of an embedding whose square underflows, and of one
    whose square overflows. *)
Lemma float32_normalize_out_of_range :
  Float32.fnormalize [Float32.of_Z 1 (-100); Float32.fzero] =
    [Float32.finf; Float32.fnan] /\
  Float32.fnormalize [Float32.fzero; Float32.of_Z 3 126] =
    [Float32.fzero; Float32.fzero] /\
  Float32.fnorm (Float32.fnormalize [Float32.of_Z 3 0; Float32.of_Z 4 0]) =
    Float32.of_Z 1 0.
Proof. repeat split; vm_compute; reflexivity. Qed.





(** * The distribution in closed form *)



Lemma well_scaled_3_0 : well_scaled [3; 0].
Proof. unfold well_scaled, sumsq, Rsum. simpl. lra. Qed.


(** The scenario of the orthonormal text embeddings, evaluated: for the
    image embedding [3; 0] the scores are 100 and 0 and the distribution
    is [e^100 / (e^100 + 1); 1 / (e^100 + 1)]. *)
Lemma scenario_scores :
  map (fun j => 100 * Rdot (Runit [3; 0]) (Rcolumn j [[1; 0]; [0; 1]]))
      (seq 0 2) = [100; 0].
Proof.
  assert (H3 : sqrt (sumsq [3; 0]) = 3).
  { replace (sumsq [3; 0]) with (3 * 3) by (unfold sumsq, Rsum; simpl; lra).
    apply sqrt_square. lra. }
  unfold Runit. rewrite H3.
  unfold Rdot, Rcolumn, Rsum. simpl. f_equal; [field | f_equal; field].
Qed.

Lemma scenario_distribution :
  Rsoftmax (map (fun j => 100 * Rdot (Runit [3; 0]) (Rcolumn j [[1; 0]; [0; 1]]))
                (seq 0 2)) =
  [exp 100 / (exp 100 + 1); 1 / (exp 100 + 1)].
Proof.
  rewrite scenario_scores. unfold Rsoftmax, Rsum. simpl. rewrite exp_0.
  pose proof (exp_pos 100).
  f_equal; [f_equal; lra | f_equal; f_equal; lra].
Qed.

(** * Ties in the CPU kernel *)

(** On a vector whose entries are all the same the comparison of the
    kernel never holds. *)
Lemma kernel_index_tied (a : tnum) (n : nat) :
  kernel_index (repeat a (S n)) = select_index (fun _ _ => false) (S n).
Proof.
  unfold kernel_index. rewrite repeat_length. f_equal.
  apply functional_extensionality. intros i.
  apply functional_extensionality. intros j.
  cbn [repeat hd]. change (a :: repeat a n) with (repeat a (S n)).
  rewrite !nth_repeat. apply tgt_irrefl.
Qed.

Lemma is_largest_tied (a : tnum) (n i : nat) :
  (i < n)%nat -> is_largest (repeat a n) i = true.
Proof.
  intros Hi. unfold is_largest. rewrite repeat_length.
  apply andb_true_iff. split; [apply Nat.ltb_lt; exact Hi|].
  apply forallb_forall. intros q Hq. apply repeat_spec in Hq. subst q.
  rewrite (nth_indep _ NaN a) by (rewrite repeat_length; exact Hi).
  rewrite nth_repeat, tgt_irrefl. reflexivity.
Qed.

(** Eight equal entries: the kernel returns index 6.  Two equal entries:
    it returns index 0. *)
Lemma topk1_kernel_eight_tied (a : tnum) :
  topk1_kernel (repeat a 8) = Some (a, 6%nat).
Proof.
  assert (Hk : kernel_index (repeat a 8) = 6%nat).
  { rewrite kernel_index_tied. vm_compute. reflexivity. }
  unfold topk1_kernel. cbn [repeat].
  change (a :: a :: a :: a :: a :: a :: a :: a :: []) with (repeat a 8).
  rewrite Hk, is_largest_tied by lia. reflexivity.
Qed.

Lemma topk1_kernel_two_tied (a : tnum) :
  topk1_kernel (repeat a 2) = Some (a, 0%nat).
Proof.
  assert (Hk : kernel_index (repeat a 2) = 0%nat).
  { rewrite kernel_index_tied. vm_compute. reflexivity. }
  unfold topk1_kernel. cbn [repeat].
  change (a :: a :: []) with (repeat a 2).
  rewrite Hk, is_largest_tied by lia. reflexivity.
Qed.

(** The tie-break claim fails on the CPU kernel: with eight label columns
    that are all the same, the eight probabilities are equal and label 6,
    not label 0, is returned. *)
Lemma eight_tied_labels :
  exists pred y,
    webcam_predict (tk := topk_kernel) Scenario.encode_image
      Probe.eight_tied (1%nat, false) = Ok pred /\
    (forall j, (j < 8)%nat ->
               column j Probe.eight_tied = column 0 Probe.eight_tied) /\
    probabilities pred = repeat (Fin y) 8 /\
    top_label pred = 6%nat.
Proof.
  destruct (@predict_real Scenario.frame Scenario.encode_image topk_kernel
              Probe.eight_tied (1%nat, false) [3; 0]
              [[1; 1; 1; 1; 1; 1; 1; 1]; [0; 0; 0; 0; 0; 0; 0; 0]])
    as [p [i [Htop [_ [_ Hpred]]]]].
  - reflexivity.
  - unfold sumsq, Rsum. simpl. lra.
  - reflexivity.
  - repeat constructor.
  - reflexivity.
  - simpl. lia.
  - set (l := 100 * Rdot (Runit [3; 0]) [1; 0]).
    set (y := exp l / Rsum (map exp (repeat l 8))).
    change (fin (Rsoftmax
              (map (fun j => 100 * Rdot (Runit [3; 0])
                       (Rcolumn j [[1; 1; 1; 1; 1; 1; 1; 1];
                                   [0; 0; 0; 0; 0; 0; 0; 0]]))
                   (seq 0 (ncols Probe.eight_tied)))))
      with (repeat (Fin y) 8) in *.
    change (@topk1 topk_kernel) with topk1_kernel in Htop.
    rewrite topk1_kernel_eight_tied in Htop. injection Htop as <- <-.
    exists (Prediction (repeat (Fin y) 8) (Fin y) 6%nat), y.
    split; [exact Hpred|]. split.
    + intros j Hj.
      do 8 (destruct j as [|j]; [reflexivity|]). lia.
    + split; reflexivity.
Qed.

(** With two label columns that are the same the kernel returns label 0. *)
Lemma two_tied_labels :
  exists pred y,
    webcam_predict (tk := topk_kernel) Scenario.encode_image
      Scenario.tied_weights (1%nat, false) = Ok pred /\
    probabilities pred = repeat (Fin y) 2 /\
    top_label pred = 0%nat.
Proof.
  destruct (@predict_real Scenario.frame Scenario.encode_image topk_kernel
              Scenario.tied_weights (1%nat, false) [3; 0] [[1; 1]; [0; 0]])
    as [p [i [Htop [_ [_ Hpred]]]]].
  - reflexivity.
  - unfold sumsq, Rsum. simpl. lra.
  - reflexivity.
  - repeat constructor.
  - reflexivity.
  - simpl. lia.
  - set (l := 100 * Rdot (Runit [3; 0]) [1; 0]).
    set (y := exp l / Rsum (map exp (repeat l 2))).
    change (fin (Rsoftmax
              (map (fun j => 100 * Rdot (Runit [3; 0])
                                    (Rcolumn j [[1; 1]; [0; 0]]))
                   (seq 0 (ncols Scenario.tied_weights)))))
      with (repeat (Fin y) 2) in *.
    change (@topk1 topk_kernel) with topk1_kernel in Htop.
    rewrite topk1_kernel_two_tied in Htop. injection Htop as <- <-.
    exists (Prediction (repeat (Fin y) 2) (Fin y) 0%nat), y.
    split; [exact Hpred|]. split; reflexivity.
Qed.

(** C5, as far as the notebook decides it.  For a well-scaled real
    embedding and a real label matrix with bounded columns, the top label
    indexes a largest probability and label columns that are equal get
    equal probabilities.  The notebook has no tie-break of its own: which
    of several largest entries is reported is decided inside topk. *)
Theorem top_label_maximal
  (tk : TopK) (image_input : Type) (encode_image : image_input -> result vec)
  (W : tensor2) (input : image_input) (xs : list R) (rs : list (list R)) :
  encode_image input = Ok (fin xs) ->
  well_scaled xs ->
  mrows W = map fin rs ->
  Forall (fun r => length r = ncols W) rs ->
  (forall j, (j < ncols W)%nat -> sumsq (Rcolumn j rs) <= 1048576) ->
  length xs = nrows W ->
  (0 < ncols W)%nat ->
  exists pred ps p,
    webcam_predict encode_image W input = Ok pred /\
    probabilities pred = fin ps /\
    (top_label pred < ncols W)%nat /\
    nth_error ps (top_label pred) = Some p /\
    (forall q, In q ps -> q <= p) /\
    (forall i j, (i < ncols W)%nat -> (j < ncols W)%nat ->
                 column i W = column j W ->
                 nth_error ps i = nth_error ps j).
Proof.
  intros Henc Hxs Hrows Hshape _ Hlen HL.
  destruct (@predict_real _ encode_image _ W input xs rs
              Henc (well_scaled_nonzero xs Hxs) Hrows Hshape Hlen HL)
    as [p [i [_ [Hnth [Hmax Hpred]]]]].
  set (ls := map (fun j => 100 * Rdot (Runit xs) (Rcolumn j rs))
                 (seq 0 (ncols W))) in *.
  destruct (nth_error_fin _ _ _ Hnth) as [r [-> Hr]].
  exists (Prediction (fin (Rsoftmax ls)) (Fin r) i), (Rsoftmax ls), r.
  cbn [probabilities top_label].
  split; [exact Hpred|]. split; [reflexivity|].
  split.
  { assert (H : (i < length (Rsoftmax ls))%nat)
      by (apply nth_error_Some; rewrite Hr; discriminate).
    unfold Rsoftmax, ls in H. rewrite !length_map, length_seq in H. exact H. }
  split; [exact Hr|]. split.
  - intros q Hq. apply tgt_fin_false. apply Hmax.
    unfold fin. apply in_map. exact Hq.
  - intros a b Ha Hb Hcol.
    destruct W as [L rows]. cbn [ncols mrows] in *. subst rows.
    rewrite !column_fin in Hcol by assumption.
    apply fin_inj in Hcol.
    unfold Rsoftmax, ls. rewrite map_map.
    rewrite !nth_error_map_seq by assumption.
    rewrite Hcol. reflexivity.
Qed.

Lemma top_label_maximal_witness :
  exists pred ps p,
    webcam_predict (tk := topk_kernel) Scenario.encode_image
      Probe.eight_tied (1%nat, false) = Ok pred /\
    probabilities pred = fin ps /\
    (top_label pred < ncols Probe.eight_tied)%nat /\
    nth_error ps (top_label pred) = Some p /\
    (forall q, In q ps -> q <= p) /\
    (forall i j, (i < ncols Probe.eight_tied)%nat ->
                 (j < ncols Probe.eight_tied)%nat ->
                 column i Probe.eight_tied = column j Probe.eight_tied ->
                 nth_error ps i = nth_error ps j).
Proof.
  apply (top_label_maximal topk_kernel Scenario.frame Scenario.encode_image
           Probe.eight_tied (1%nat, false) [3; 0]
           [[1; 1; 1; 1; 1; 1; 1; 1]; [0; 0; 0; 0; 0; 0; 0; 0]]).
  - reflexivity.
  - exact well_scaled_3_0.
  - reflexivity.
  - repeat constructor.
  - intros j Hj. simpl in Hj.
    do 8 (destruct j as [|j];
          [unfold Rcolumn, sumsq, Rsum; simpl; lra|]).
    lia.
  - reflexivity.
  - simpl. lia.
Defined.

(** * Scale invariance and bounds, in the range of the arithmetic *)

(** X6.  The prediction does not depend on the length of the image
    embedding: two encoder inputs whose raw embeddings are well scaled
    and differ by a positive factor get the same prediction, in both
    loops. *)
Theorem predict_scale_invariant
  (tk : TopK) (image_input : Type) (encode_image : image_input -> result vec)
  (W : tensor2) (input input' : image_input) (xs : list R) (c : R) :
  encode_image input = Ok (fin xs) ->
  encode_image input' = Ok (fin (map (Rmult c) xs)) ->
  0 < c ->
  well_scaled xs ->
  well_scaled (map (Rmult c) xs) ->
  webcam_predict encode_image W input' = webcam_predict encode_image W input /\
  video_predict encode_image W input' = video_predict encode_image W input.
Proof.
  intros H H' Hc _ _.
  assert (Hw : webcam_predict encode_image W input' =
               webcam_predict encode_image W input).
  { unfold webcam_predict. rewrite H, H'. cbn [bind].
    rewrite (normalize_scale c xs Hc). reflexivity. }
  split; [exact Hw | exact Hw].
Qed.

Lemma predict_scale_invariant_witness :
  webcam_predict (tk := topk_first) Probe.scaled_encode_image
    Scenario.weights (1%nat, false) =
  webcam_predict (tk := topk_first) Probe.scaled_encode_image
    Scenario.weights (0%nat, false) /\
  video_predict (tk := topk_first) Probe.scaled_encode_image
    Scenario.weights (1%nat, false) =
  video_predict (tk := topk_first) Probe.scaled_encode_image
    Scenario.weights (0%nat, false).
Proof.
  apply (predict_scale_invariant topk_first Scenario.frame
           Probe.scaled_encode_image Scenario.weights
           (0%nat, false) (1%nat, false) [3; 4] 2).
  - reflexivity.
  - reflexivity.
  - lra.
  - unfold well_scaled, sumsq, Rsum. simpl. lra.
  - unfold well_scaled, sumsq, Rsum. simpl. lra.
Defined.






